(** * Monthly Spend Overview: budget locking, aggregates and expansion state

    A shallow embedding of [src/app/page.tsx].  The component keeps five
    pieces of React state ([budgets], [editingCategory], [editValue],
    [expandedCategory], [toast]); every event handler is a function on
    that state, and the derived values ([totalBudget], [totalSpent],
    [spentPercentage], [getSpentByCategory], [categoryStats]) are pure
    functions of the budget list and the transaction list.

    Numbers.  A JavaScript [number] is a binary64 double.  The event
    handlers only store, copy and compare numbers, and there a number is
    carried as the rational it denotes ([Q]).  The derived values come
    in two readings:
    - the exact reading, over [Q], in which sums, quotients and products
      are not rounded and a division by zero is [None] ([js_div]).  It
      agrees with the page wherever the doubles are exact: sums of
      integers whose magnitudes add up to at most 2^53 ([exact_sums]),
      comparisons, [Math.max] and [Math.min].  Statements about sums
      carry that hypothesis;
    - the binary64 reading of module [Double], over [spec_float] with
      the correctly rounded operations of the standard library, for the
      overall percentage, where the quotient is rounded before
      [Math.round] sees it.

    Objects.  The totals of [categoryStats] are collected in an object
    literal, which inherits the members of [Object.prototype]; [get]
    reads through to them. *)

From Stdlib Require Import List Bool Arith ZArith NArith QArith Qround.
From Stdlib Require Import String Ascii Permutation Sorting.Sorted Lia Lqa.
From Stdlib Require Import Setoid Morphisms Floats.SpecFloat.
Import ListNotations.

Local Open Scope string_scope.
Local Open Scope Q_scope.

(** ** Data model *)

Inductive Source := email | sms | manual.

Record Transaction := mkTransaction
  { id : string;
    date : string;
    amount : Q;
    merchant : string;
    category : string;
    source : Source }.

Record CategoryBudget := mkBudget
  { b_category : string;
    monthlyBudget : Q;
    lockedForMonth : bool }.

Definition mockTransactions : list Transaction :=
  [ mkTransaction "1" "2025-08-05" 1250 "Swiggy" "Food" email;
    mkTransaction "2" "2025-08-06" 890 "Zomato" "Food" sms;
    mkTransaction "3" "2025-08-07" 3499 "Myntra" "Shopping" email;
    mkTransaction "4" "2025-08-08" 450 "Uber" "Travel / Fuel" sms;
    mkTransaction "5" "2025-08-10" 1200 "Netflix" "Entertainment" manual;
    mkTransaction "6" "2025-08-12" 560 "Apollo Pharmacy" "Medical" sms;
    mkTransaction "7" "2025-08-15" 2100 "Amazon" "Shopping" email;
    mkTransaction "8" "2025-08-16" 380 "Cafe Coffee Day" "Food" manual;
    mkTransaction "9" "2025-08-17" 850 "Rapido" "Travel / Fuel" sms ].

Definition initialBudgets : list CategoryBudget :=
  [ mkBudget "Food" 8000 true;
    mkBudget "Entertainment" 4000 false;
    mkBudget "Shopping" 12000 false;
    mkBudget "Travel / Fuel" 6000 false;
    mkBudget "Medical" 3000 false;
    mkBudget "Other" 5000 false ].

(** ** Component state *)

Inductive ToastType := success | error.

Record Toast := mkToast { message : string; type : ToastType }.

(** The options object handed to [confetti]. *)
Record ConfettiOpts := mkConfetti
  { particleCount : nat; spread : nat; origin_y : Q }.

(** The five [useState] cells, the number of pending [setTimeout]
    callbacks of [showToast], and the confetti bursts fired so far. *)
Record State := mkState
  { budgets : list CategoryBudget;
    editingCategory : option string;
    editValue : Q;
    expandedCategory : option string;
    toast : option Toast;
    timers : nat;
    confettiLog : list ConfettiOpts }.

Definition initialState (bs : list CategoryBudget) : State :=
  mkState bs None 0 None None 0 [].

Definition setBudgets (f : list CategoryBudget -> list CategoryBudget)
  (st : State) : State :=
  mkState (f (budgets st)) (editingCategory st) (editValue st)
          (expandedCategory st) (toast st) (timers st) (confettiLog st).

Definition setEditingCategory (c : option string) (st : State) : State :=
  mkState (budgets st) c (editValue st)
          (expandedCategory st) (toast st) (timers st) (confettiLog st).

Definition setEditValue (v : Q) (st : State) : State :=
  mkState (budgets st) (editingCategory st) v
          (expandedCategory st) (toast st) (timers st) (confettiLog st).

Definition setExpandedCategory (c : option string) (st : State) : State :=
  mkState (budgets st) (editingCategory st) (editValue st)
          c (toast st) (timers st) (confettiLog st).

Definition setToast (t : option Toast) (st : State) : State :=
  mkState (budgets st) (editingCategory st) (editValue st)
          (expandedCategory st) t (timers st) (confettiLog st).

(** [setTimeout(() => setToast(null), 3000)]: one more pending callback. *)
Definition setTimeout_clear (st : State) : State :=
  mkState (budgets st) (editingCategory st) (editValue st)
          (expandedCategory st) (toast st) (S (timers st)) (confettiLog st).

Definition confetti (o : ConfettiOpts) (st : State) : State :=
  mkState (budgets st) (editingCategory st) (editValue st)
          (expandedCategory st) (toast st) (timers st) (confettiLog st ++ [o]).

(** ** Event handlers *)

Definition showToast (msg : string) (ty : ToastType) (st : State) : State :=
  setTimeout_clear (setToast (Some (mkToast msg ty)) st).

Definition save_message (category : string) : string :=
  "Budget for " ++ category ++ " updated & locked for this month!".

Definition handleSave (category : string) (st : State) : State :=
  let st1 :=
    setBudgets
      (map (fun b =>
              if String.eqb (b_category b) category
              then mkBudget (b_category b) (editValue st) true
              else b))
      st in
  let st2 := setEditingCategory None st1 in
  let st3 := showToast (save_message category) success st2 in
  confetti (mkConfetti 60 70 (6 # 10)) st3.

(** The [onClick] of the edit button on the card rendered for [budget]. *)
Definition editButton_onClick (budget : CategoryBudget) (st : State) : State :=
  if negb (lockedForMonth budget)
  then setEditValue (monthlyBudget budget)
         (setEditingCategory (Some (b_category budget)) st)
  else st.

(** The [onChange] of the number input. *)
Definition input_onChange (v : Q) (st : State) : State := setEditValue v st.

(** The [onClick] of the save (check mark) button of [budget]'s card. *)
Definition saveButton_onClick (budget : CategoryBudget) (st : State) : State :=
  handleSave (b_category budget) st.

(** The [onClick] of the cancel (cross) button. *)
Definition cancelButton_onClick (st : State) : State :=
  setEditingCategory None st.

Definition isExpanded (budget : CategoryBudget) (st : State) : bool :=
  match expandedCategory st with
  | Some c => String.eqb c (b_category budget)
  | None => false
  end.

(** The [onClick] of the card header rendered for [budget]. *)
Definition card_onClick (budget : CategoryBudget) (st : State) : State :=
  setExpandedCategory
    (if isExpanded budget st then None else Some (b_category budget)) st.

(** A pending [setTimeout] callback of [showToast] runs. *)
Definition toast_timeout (st : State) : State :=
  mkState (budgets st) (editingCategory st) (editValue st)
          (expandedCategory st) None (pred (timers st)) (confettiLog st).

(** ** What the rendered page lets the user do

    One card is rendered per element of [budgets].  A card shows the
    number input with the save and cancel buttons when
    [editingCategory === budget.category], and the edit button
    otherwise; the header of every card toggles the expansion.  An event
    names the card by its position in [budgets]. *)

Inductive Event :=
| EditClick (i : nat)
| InputChange (i : nat) (v : Q)
| SaveClick (i : nat)
| CancelClick (i : nat)
| CardClick (i : nat)
| ToastTimeout.

Definition inEditMode (budget : CategoryBudget) (st : State) : bool :=
  match editingCategory st with
  | Some c => String.eqb c (b_category budget)
  | None => false
  end.

Inductive step : State -> Event -> State -> Prop :=
| step_edit st i b :
    nth_error (budgets st) i = Some b ->
    inEditMode b st = false ->
    step st (EditClick i) (editButton_onClick b st)
| step_input st i b v :
    nth_error (budgets st) i = Some b ->
    inEditMode b st = true ->
    step st (InputChange i v) (input_onChange v st)
| step_save st i b :
    nth_error (budgets st) i = Some b ->
    inEditMode b st = true ->
    step st (SaveClick i) (saveButton_onClick b st)
| step_cancel st i b :
    nth_error (budgets st) i = Some b ->
    inEditMode b st = true ->
    step st (CancelClick i) (cancelButton_onClick st)
| step_card st i b :
    nth_error (budgets st) i = Some b ->
    step st (CardClick i) (card_onClick b st)
| step_timeout st :
    (0 < timers st)%nat ->
    step st ToastTimeout (toast_timeout st).

(** Sessions: finite runs of events. *)
Inductive steps : State -> list Event -> State -> Prop :=
| steps_nil st : steps st [] st
| steps_cons st ev st1 evs st2 :
    step st ev st1 -> steps st1 evs st2 -> steps st (ev :: evs) st2.

Definition reachable (bs : list CategoryBudget) (st : State) : Prop :=
  exists evs, steps (initialState bs) evs st.

(** The executable counterpart of [step]: the state after an event, if
    the page offers that event. *)
Definition dispatch (ev : Event) (st : State) : option State :=
  match ev with
  | EditClick i =>
      match nth_error (budgets st) i with
      | Some b => if inEditMode b st then None
                  else Some (editButton_onClick b st)
      | None => None
      end
  | InputChange i v =>
      match nth_error (budgets st) i with
      | Some b => if inEditMode b st then Some (input_onChange v st) else None
      | None => None
      end
  | SaveClick i =>
      match nth_error (budgets st) i with
      | Some b => if inEditMode b st then Some (saveButton_onClick b st)
                  else None
      | None => None
      end
  | CancelClick i =>
      match nth_error (budgets st) i with
      | Some b => if inEditMode b st then Some (cancelButton_onClick st)
                  else None
      | None => None
      end
  | CardClick i =>
      match nth_error (budgets st) i with
      | Some b => Some (card_onClick b st)
      | None => None
      end
  | ToastTimeout =>
      if (0 <? timers st)%nat then Some (toast_timeout st) else None
  end.

Fixpoint run (evs : list Event) (st : State) : option State :=
  match evs with
  | [] => Some st
  | ev :: evs' =>
      match dispatch ev st with
      | Some st1 => run evs' st1
      | None => None
      end
  end.

Definition categories (bs : list CategoryBudget) : list string :=
  map b_category bs.

(** The budget list after [handleSave]. *)
Definition saved (category : string) (v : Q) (b : CategoryBudget)
  : CategoryBudget :=
  if String.eqb (b_category b) category
  then mkBudget (b_category b) v true else b.


(** ** Numbers *)

(** [a / b].  [None] stands for the non-finite result of a division by
    zero. *)
Definition js_div (a b : Q) : option Q :=
  if Qeq_bool b 0 then None else Some (a / b).

(** [Math.round] in the exact reading: the nearest integer, a tie going
    up. *)
Definition Math_round (x : Q) : Q := inject_Z (Qfloor (x + (1 # 2))).

(** [a > b]. *)
Definition gt (a b : Q) : bool := negb (Qle_bool a b).

Definition bind {A B : Type} (o : option A) (f : A -> option B) : option B :=
  match o with
  | Some a => f a
  | None => None
  end.

Notation "x <- c ;; k" := (bind c (fun x => k))
  (at level 61, c at next level, right associativity).

Fixpoint mapM {A B : Type} (f : A -> option B) (l : list A)
  : option (list B) :=
  match l with
  | [] => Some []
  | x :: l' => y <- f x ;; ys <- mapM f l' ;; Some (y :: ys)
  end.

(** ** Aggregates

    The exact reading of the derived values: the sums are the page's
    for [exact_sums] inputs, and the percentage is the page's where the
    rounded quotient falls on the same side of the half as the exact
    one; [Double.spentPercentage] is the page's everywhere. *)

Definition totalBudget (budgets : list CategoryBudget) : Q :=
  fold_left (fun sum b => sum + monthlyBudget b) budgets 0.

Definition totalSpent (txs : list Transaction) : Q :=
  fold_left (fun sum t => sum + amount t) txs 0.

Definition spentPercentage (budgets : list CategoryBudget)
  (txs : list Transaction) : option Q :=
  if gt (totalBudget budgets) 0
  then q <- js_div (totalSpent txs) (totalBudget budgets) ;;
       Some (Math_round (q * 100))
  else Some 0.

Definition getSpentByCategory (txs : list Transaction) (c : string) : Q :=
  fold_left (fun sum t => sum + amount t)
            (filter (fun t => String.eqb (category t) c) txs) 0.

(** ** A plain object used as [Record<string, number>]

    The own properties of the object, in the order of their creation,
    each holding a number. *)

Definition Dict := list (string * Q).

(** The value of an own property. *)
Fixpoint own (m : Dict) (k : string) : option Q :=
  match m with
  | [] => None
  | (k', v) :: m' => if String.eqb k' k then Some v else own m' k
  end.

(** The function-valued members of [Object.prototype]. *)
Definition prototype_functions : list string :=
  [ "constructor"; "hasOwnProperty"; "isPrototypeOf";
    "propertyIsEnumerable"; "toLocaleString"; "toString"; "valueOf";
    "__defineGetter__"; "__defineSetter__";
    "__lookupGetter__"; "__lookupSetter__" ].

(** The names an object literal answers to without owning them. *)
Definition inherited_name (k : string) : bool :=
  String.eqb k "__proto__" || existsb (String.eqb k) prototype_functions.

(** What [map[k]] evaluates to: the own number, or else what the
    prototype has under that name. *)
Inductive Read :=
| undefined
| number (v : Q)
| prototype_object
| prototype_function.

Definition get (m : Dict) (k : string) : Read :=
  match own m k with
  | Some v => number v
  | None =>
      if String.eqb k "__proto__" then prototype_object
      else if existsb (String.eqb k) prototype_functions
           then prototype_function
           else undefined
  end.

Fixpoint set (m : Dict) (k : string) (v : Q) : Dict :=
  match m with
  | [] => [(k, v)]
  | (k', v') :: m' =>
      if String.eqb k' k then (k', v) :: m' else (k', v') :: set m' k v
  end.

(** Array indices: the canonical decimal numerals of 0 .. 2^32 - 2. *)
Definition digit (a : ascii) : option N :=
  let n := N_of_ascii a in
  if ((48 <=? n) && (n <=? 57))%N then Some (n - 48)%N else None.

Fixpoint digits (s : string) (acc : N) : option N :=
  match s with
  | EmptyString => Some acc
  | String a s' => d <- digit a ;; digits s' (10 * acc + d)%N
  end.

Definition array_index (s : string) : option N :=
  match s with
  | EmptyString => None
  | String a s' =>
      if Ascii.eqb a "0" && negb (String.eqb s' "") then None
      else n <- digits s 0 ;;
           if (n <? 2 ^ 32 - 1)%N then Some n else None
  end.

Definition is_index (k : string) : bool :=
  match array_index k with
  | Some _ => true
  | None => false
  end.

Definition index_keys (ks : list string) : list (N * string) :=
  flat_map (fun k => match array_index k with
                     | Some n => [(n, k)]
                     | None => []
                     end) ks.

Fixpoint insert_index (x : N * string) (l : list (N * string))
  : list (N * string) :=
  match l with
  | [] => [x]
  | y :: l' => if (fst x <=? fst y)%N then x :: l else y :: insert_index x l'
  end.

Definition sort_index (l : list (N * string)) : list (N * string) :=
  fold_right insert_index [] l.

(** The order in which an ordinary object lists its own string keys:
    array indices in ascending numeric order, then the other keys in the
    order of their creation. *)
Definition OwnPropertyKeys (ks : list string) : list string :=
  map snd (sort_index (index_keys ks))
  ++ filter (fun k => negb (is_index k)) ks.

Definition Object_entries (m : Dict) : list (string * Q) :=
  flat_map (fun k => match own m k with
                     | Some v => [(k, v)]
                     | None => []
                     end)
           (OwnPropertyKeys (map fst m)).

(** [Array.prototype.sort] with a comparator: a stable sort; [a] stays
    in front of [b] when [cmp a b <= 0]. *)
Fixpoint sort_insert {A : Type} (cmp : A -> A -> Q) (x : A) (l : list A)
  : list A :=
  match l with
  | [] => [x]
  | y :: l' =>
      if Qle_bool (cmp x y) 0 then x :: l else y :: sort_insert cmp x l'
  end.

Definition Array_sort {A : Type} (cmp : A -> A -> Q) (l : list A) : list A :=
  fold_right (sort_insert cmp) [] l.

(** ** Spend per category for the analytics card *)

Record CategoryStat := mkStat
  { s_category : string;
    s_amount : Q;
    percentageOfTotal : Q }.

(** One turn of the loop,
    [map[t.category] = (map[t.category] || 0) + t.amount]:
    - an absent key ([undefined], falsy) starts from 0;
    - an own number is kept unless it is 0 (falsy);
    - for ["__proto__"] the read gives the prototype object, the sum is
      a string and the assignment, which goes to the [__proto__] setter,
      is ignored: the object is left as it is;
    - for an inherited function the sum is a string that the assignment
      stores as an own property: the totals are no longer numbers, and
      the model stops ([None]). *)
Definition add_to_totals (map : Dict) (t : Transaction) : option Dict :=
  match get map (category t) with
  | undefined => Some (set map (category t) (0 + amount t))
  | number v =>
      Some (set map (category t)
                ((if Qeq_bool v 0 then 0 else v) + amount t))
  | prototype_object => Some map
  | prototype_function => None
  end.

Fixpoint totals_loop (map : Dict) (txs : list Transaction) : option Dict :=
  match txs with
  | [] => Some map
  | t :: rest => map' <- add_to_totals map t ;; totals_loop map' rest
  end.

Definition category_totals (txs : list Transaction) : option Dict :=
  totals_loop [] txs.

Definition stat_entry (total : Q) (kv : string * Q) : option CategoryStat :=
  pct <- (if gt total 0
          then q <- js_div (snd kv) total ;; Some (q * 100)
          else Some 0) ;;
  Some (mkStat (fst kv) (snd kv) pct).

Definition categoryStats (txs : list Transaction)
  : option (list CategoryStat) :=
  map <- category_totals txs ;;
  entries <- mapM (stat_entry (totalSpent txs)) (Object_entries map) ;;
  Some (Array_sort (fun a b => s_amount b - s_amount a) entries).

(** ** Colour tiers of the overall indicator *)

Inductive Tier := normal | warning | danger.

(** The colour class of the progress ring in [CircularProgress]. *)
Definition CircularProgress_color (percentage : Q) : string :=
  if gt percentage 90 then "text-rose-500"
  else if gt percentage 70 then "text-amber-500"
  else "text-sky-500".

(** The colour classes of the badge under the ring. *)
Definition badge_color (spentPercentage : Q) : string :=
  if gt spentPercentage 90 then "bg-rose-50 text-rose-700 border-rose-100"
  else if gt spentPercentage 70
       then "bg-amber-50 text-amber-700 border-amber-100"
       else "bg-emerald-50 text-emerald-700 border-emerald-100".

(** Which classes render which tier. *)
Definition ring_class (t : Tier) : string :=
  match t with
  | normal => "text-sky-500"
  | warning => "text-amber-500"
  | danger => "text-rose-500"
  end.

Definition badge_class (t : Tier) : string :=
  match t with
  | normal => "bg-emerald-50 text-emerald-700 border-emerald-100"
  | warning => "bg-amber-50 text-amber-700 border-amber-100"
  | danger => "bg-rose-50 text-rose-700 border-rose-100"
  end.

(** ** Vocabulary of the specification *)

(** The distinct elements of a list, in the order of first appearance. *)
Fixpoint distinct (l : list string) : list string :=
  match l with
  | [] => []
  | x :: l' => x :: filter (fun y => negb (String.eqb y x)) (distinct l')
  end.

Definition Qsum (l : list Q) : Q := fold_right Qplus 0 l.

(** The tier the specification assigns to a percentage: normal below
    70, warning from 70 to 90, danger above 90. *)
Definition spec_tier (p : Q) : Tier :=
  if gt 70 p then normal
  else if Qle_bool p 90 then warning
  else danger.

(** ** Invariants of a session *)

(** Two versions of one budget entry: same category, and a lock once
    set stays set. *)
Definition lock_le (b b' : CategoryBudget) : Prop :=
  b_category b' = b_category b /\
  (lockedForMonth b = true -> lockedForMonth b' = true).

(** The category under edit, if any, is not locked. *)
Definition editing_unlocked (st : State) : Prop :=
  forall b, In b (budgets st) -> inEditMode b st = true ->
            lockedForMonth b = false.

(** ** The totals object when no category has an inherited name

    Then every read is [undefined] or an own number, and the loop is a
    plain fold. *)

Definition own_names (txs : list Transaction) : bool :=
  forallb (fun t => negb (inherited_name (category t))) txs.

Definition has_key (m : Dict) (k : string) : bool :=
  existsb (String.eqb k) (map fst m).

(** [x || 0] on an optional number: [undefined] and [0] are falsy. *)
Definition or_zero (o : option Q) : Q :=
  match o with
  | Some v => if Qeq_bool v 0 then 0 else v
  | None => 0
  end.

Definition add_own (m : Dict) (t : Transaction) : Dict :=
  set m (category t) (or_zero (own m (category t)) + amount t).

Definition own_totals (txs : list Transaction) : Dict :=
  fold_left add_own txs [].

(** ** Where the exact reading is the page's

    Integers whose magnitudes add up to at most 2^53: every sum of some
    of them, in any order, is an integer of magnitude at most 2^53, so
    binary64 addition never rounds. *)

Definition is_integer (q : Q) : bool := Pos.eqb (Qden q) 1.

Definition magnitude_sum (l : list Q) : Z :=
  fold_right (fun q s => (Z.abs (Qnum q) + s)%Z) 0%Z l.

Definition exact_sums (l : list Q) : bool :=
  forallb is_integer l && (magnitude_sum l <=? 2 ^ 53)%Z.

(** ** Vocabulary for the order of the entries *)


(** Descending order of amounts. *)
Definition amount_ge (e1 e2 : CategoryStat) : Prop :=
  s_amount e2 <= s_amount e1.

(** The entry built from one pair of [Object.entries(map)]. *)
Definition stat_of (total : Q) (kv : string * Q) : CategoryStat :=
  mkStat (fst kv) (snd kv)
         (if gt total 0 then snd kv / total * 100 else 0).




(** ** The binary64 reading

    Doubles as [spec_float] with 53 bits of precision, and the correctly
    rounded sum, product and quotient of the standard library. *)

Module Double.

Definition number := spec_float.

Definition prec : Z := 53.
Definition emax : Z := 1024.

Definition zero : number := S754_zero false.

Definition add (a b : number) : number := SFadd prec emax a b.
Definition mul (a b : number) : number := SFmul prec emax a b.
Definition div (a b : number) : number := SFdiv prec emax a b.

(** [a > b] and [a <= b]; both are false when either side is [NaN]. *)
Definition gt (a b : number) : bool := SFltb b a.
Definition le (a b : number) : bool := SFleb a b.

(** The double of an integer: below 2^53 the integer itself, its
    mantissa shifted to 53 bits; from 2^53 on the nearest double. *)
Definition of_positive (s : bool) (p : positive) : number :=
  if (Zpos p <? 2 ^ 53)%Z
  then match (53 - Zpos (digits2_pos p))%Z with
       | Zpos k => S754_finite s (Pos.iter xO p k) (Zneg k)
       | _ => S754_finite s p 0
       end
  else binary_normalize prec emax (cond_Zopp s (Zpos p)) 0 false.

Definition of_Z (n : Z) : number :=
  match n with
  | Z0 => zero
  | Zpos p => of_positive false p
  | Zneg p => of_positive true p
  end.

(** The double nearest to a decimal numeral, as the parser of number
    literals and [Number(string)] give it (numerator and denominator
    below 2^53). *)
Definition of_Q (q : Q) : number :=
  div (of_Z (Qnum q)) (of_Z (Zpos (Qden q))).

(** The rational a finite double denotes (0 for the others). *)
Definition value (x : number) : Q :=
  match x with
  | S754_finite s m (Zneg k) => cond_Zopp s (Zpos m) # (2 ^ k)
  | S754_finite s m e => inject_Z (cond_Zopp s (Zpos m) * 2 ^ e)
  | _ => 0
  end.

(** [Math.round]: [NaN], the infinities, the zeros and the integral
    doubles (exponent not negative) are returned as they are; otherwise
    the integer [floor(x + 1/2)], taken exactly, with the sign of [x]
    kept on a zero result. *)
Definition Math_round (x : number) : number :=
  match x with
  | S754_finite s m (Zneg k) =>
      match Qfloor (value x + (1 # 2)) with
      | Z0 => S754_zero s
      | n => of_Z n
      end
  | _ => x
  end.

Record Transaction := mkTransaction
  { id : string;
    date : string;
    amount : number;
    merchant : string;
    category : string;
    source : Source }.

Record CategoryBudget := mkBudget
  { b_category : string;
    monthlyBudget : number;
    lockedForMonth : bool }.

Definition totalBudget (budgets : list CategoryBudget) : number :=
  fold_left (fun sum b => add sum (monthlyBudget b)) budgets zero.

Definition totalSpent (txs : list Transaction) : number :=
  fold_left (fun sum t => add sum (amount t)) txs zero.

Definition spentPercentage (budgets : list CategoryBudget)
  (txs : list Transaction) : number :=
  if gt (totalBudget budgets) zero
  then Math_round (mul (div (totalSpent txs) (totalBudget budgets))
                       (of_Z 100))
  else zero.

Definition getSpentByCategory (txs : list Transaction) (c : string)
  : number :=
  fold_left (fun sum t => add sum (amount t))
            (filter (fun t => String.eqb (category t) c) txs) zero.

End Double.

(** The records of the page with their numbers as doubles. *)
Definition double_transaction (t : Transaction) : Double.Transaction :=
  Double.mkTransaction (id t) (date t) (Double.of_Q (amount t))
                       (merchant t) (category t) (source t).

Definition double_budget (b : CategoryBudget) : Double.CategoryBudget :=
  Double.mkBudget (b_category b) (Double.of_Q (monthlyBudget b))
                  (lockedForMonth b).

Definition double_spentPercentage (budgets : list CategoryBudget)
  (txs : list Transaction) : Double.number :=
  Double.spentPercentage (map double_budget budgets)
                         (map double_transaction txs).

(** ** The rest of the page: what each card and the chart show *)

(** [Math.max] and [Math.min] of two numbers. *)
Definition Math_max (a b : Q) : Q := if Qle_bool a b then b else a.

Definition Math_min (a b : Q) : Q := if Qle_bool a b then a else b.

Definition maxCategoryAmount (stats : list CategoryStat) : Q :=
  fold_left (fun max c => Math_max max (s_amount c)) stats 0.

(** What a component returns: [null] or its markup. *)
Inductive Rendered (A : Type) :=
| Hidden
| Shown (a : A).

Arguments Hidden {A}.
Arguments Shown {A} a.

(** One row of the bar chart: the label, the amount, the percentage of
    the total and the width of the bar in percent. *)
Record Bar := mkBar
  { bar_category : string;
    bar_amount : Q;
    bar_percentage : Q;
    bar_width : Q }.

Definition CategoryBarChart (stats : list CategoryStat)
  : option (Rendered (list Bar)) :=
  if Nat.eqb (List.length stats) 0 || Qeq_bool (maxCategoryAmount stats) 0
  then Some Hidden
  else
    bars <- mapM (fun item =>
                    q <- js_div (s_amount item) (maxCategoryAmount stats) ;;
                    Some (mkBar (s_category item) (s_amount item)
                                (percentageOfTotal item) (q * 100)))
                 stats ;;
    Some (Shown bars).

(** The locals of the card rendered for [budget]. *)
Definition card_spent (txs : list Transaction) (budget : CategoryBudget) : Q :=
  getSpentByCategory txs (b_category budget).

Definition card_percentage (txs : list Transaction) (budget : CategoryBudget)
  : option Q :=
  if gt (monthlyBudget budget) 0
  then q <- js_div (card_spent txs budget) (monthlyBudget budget) ;;
       Some (Math_round (q * 100))
  else Some 0.

Definition card_transactions (txs : list Transaction)
  (budget : CategoryBudget) : list Transaction :=
  filter (fun t => String.eqb (category t) (b_category budget)) txs.

(** The colour class and the width (in percent) of a card's bar. *)
Definition card_bar_class (percentage : Q) : string :=
  if gt percentage 100 then "bg-rose-500"
  else if gt percentage 80 then "bg-amber-400"
  else "bg-gradient-to-r from-sky-500 to-indigo-500".

Definition card_bar_width (percentage : Q) : Q := Math_min percentage 100.

(** The geometry of the ring in [CircularProgress].  [Math.PI] is the
    double nearest to pi, itself a rational; the two divisors are
    non-zero literals. *)
Definition Math_PI : Q := 884279719003555 # 281474976710656.

Definition radius (size : Q) : Q := size / 2 - 20.

Definition circumference (size : Q) : Q := 2 * Math_PI * radius size.

Definition strokeDashoffset (percentage size : Q) : Q :=
  circumference size - (percentage / 100) * circumference size.

(** ** Counting in a session *)

Definition is_save (ev : Event) : bool :=
  match ev with SaveClick _ => true | _ => false end.

Definition is_timeout (ev : Event) : bool :=
  match ev with ToastTimeout => true | _ => false end.

Definition is_card_click (ev : Event) : bool :=
  match ev with CardClick _ => true | _ => false end.

Definition count_events (p : Event -> bool) (evs : list Event) : nat :=
  List.length (filter p evs).

Definition unlocked_count (bs : list CategoryBudget) : nat :=
  List.length (filter (fun b => negb (lockedForMonth b)) bs).

(** A transaction whose category has a budget card. *)
Definition has_card (bs : list CategoryBudget) (t : Transaction) : bool :=
  existsb (String.eqb (category t)) (categories bs).

(** The parts of a state that the invariants of a session speak of. *)
Definition names_a_card (bs : list CategoryBudget) (o : option string)
  : Prop :=
  forall c, o = Some c -> In c (categories bs).

Definition toast_of_a_save (bs : list CategoryBudget) (st : State) : Prop :=
  forall t, toast st = Some t ->
            type t = success /\
            (exists c, In c (categories bs) /\ message t = save_message c) /\
            (0 < timers st)%nat.

(** The row of the chart drawn for one entry. *)
Definition bar_of (max : Q) (item : CategoryStat) : Bar :=
  mkBar (s_category item) (s_amount item) (percentageOfTotal item)
        (s_amount item / max * 100).

(** Descending order of widths. *)
Definition width_ge (b1 b2 : Bar) : Prop := bar_width b2 <= bar_width b1.
(** ** The seed data *)

Example totalSpent_mock : totalSpent mockTransactions = 11179.
Proof. reflexivity. Qed.

Example totalBudget_initial : totalBudget initialBudgets = 38000.
Proof. reflexivity. Qed.

Example spent_food : getSpentByCategory mockTransactions "Food" = 2520.
Proof. reflexivity. Qed.

Example spentPercentage_initial :
  spentPercentage initialBudgets mockTransactions = Some 29.
Proof. reflexivity. Qed.

Example categoryStats_mock :
  option_map (map (fun e => (s_category e, s_amount e)))
             (categoryStats mockTransactions)
  = Some [("Shopping", 5599); ("Food", 2520); ("Travel / Fuel", 1300);
          ("Entertainment", 1200); ("Medical", 560)].
Proof. vm_compute. reflexivity. Qed.

Example own_keys_order :
  OwnPropertyKeys ["b"; "10"; "a"; "2"; "07"] = ["2"; "10"; "b"; "a"; "07"].
Proof. vm_compute. reflexivity. Qed.

Example save_once :
  option_map budgets
    (run [EditClick 2; InputChange 2 9000; SaveClick 2; EditClick 2]%nat
         (initialState initialBudgets))
  = Some [ mkBudget "Food" 8000 true;
           mkBudget "Entertainment" 4000 false;
           mkBudget "Shopping" 9000 true;
           mkBudget "Travel / Fuel" 6000 false;
           mkBudget "Medical" 3000 false;
           mkBudget "Other" 5000 false ].
Proof. vm_compute. reflexivity. Qed.

(** Why categories have to be unique for the lock to protect an entry:
    two cards of one category share the edit mode and the save. *)
Example duplicate_categories_share_a_save :
  option_map budgets
    (run [EditClick 1; InputChange 1 7; SaveClick 1]%nat
         (initialState [mkBudget "Food" 8000 true; mkBudget "Food" 10 false]))
  = Some [mkBudget "Food" 7 true; mkBudget "Food" 7 true].
Proof. vm_compute. reflexivity. Qed.

(** ** Basic facts about the handlers *)

Lemma dispatch_step ev st st' : dispatch ev st = Some st' -> step st ev st'.
Proof.
  destruct ev as [i|i v|i|i|i|]; simpl.
  - destruct (nth_error (budgets st) i) as [b|] eqn:Hb; [|discriminate].
    destruct (inEditMode b st) eqn:He; [discriminate|].
    intros [= <-]. now apply step_edit with (b := b).
  - destruct (nth_error (budgets st) i) as [b|] eqn:Hb; [|discriminate].
    destruct (inEditMode b st) eqn:He; [|discriminate].
    intros [= <-]. now apply step_input with (b := b).
  - destruct (nth_error (budgets st) i) as [b|] eqn:Hb; [|discriminate].
    destruct (inEditMode b st) eqn:He; [|discriminate].
    intros [= <-]. now apply step_save with (b := b).
  - destruct (nth_error (budgets st) i) as [b|] eqn:Hb; [|discriminate].
    destruct (inEditMode b st) eqn:He; [|discriminate].
    intros [= <-]. now apply step_cancel with (b := b).
  - destruct (nth_error (budgets st) i) as [b|] eqn:Hb; [|discriminate].
    intros [= <-]. now apply step_card with (b := b).
  - destruct (0 <? timers st)%nat eqn:Ht; [|discriminate].
    intros [= <-]. apply step_timeout. now apply Nat.ltb_lt.
Qed.

Lemma run_steps evs : forall st st', run evs st = Some st' -> steps st evs st'.
Proof.
  induction evs as [|ev evs IH]; simpl; intros st st' H.
  - injection H as <-. constructor.
  - destruct (dispatch ev st) as [st1|] eqn:Hd; [|discriminate].
    econstructor; [apply dispatch_step; eassumption | now apply IH].
Qed.

Lemma steps_app st evs1 st1 evs2 st2 :
  steps st evs1 st1 -> steps st1 evs2 st2 -> steps st (evs1 ++ evs2) st2.
Proof.
  induction 1; simpl; intros H2; [assumption|].
  econstructor; eauto.
Qed.

Lemma handleSave_budgets c st :
  budgets (handleSave c st) = map (saved c (editValue st)) (budgets st).
Proof. reflexivity. Qed.

Lemma saved_category c v b : b_category (saved c v b) = b_category b.
Proof. unfold saved. now destruct String.eqb. Qed.

Lemma saved_locked c v b :
  lockedForMonth b = true -> lockedForMonth (saved c v b) = true.
Proof. unfold saved. now destruct String.eqb. Qed.

Lemma saved_other c v b : b_category b <> c -> saved c v b = b.
Proof.
  unfold saved. intros H.
  destruct (String.eqb_spec (b_category b) c); [contradiction | reflexivity].
Qed.

Lemma saved_same c v b :
  b_category b = c -> saved c v b = mkBudget c v true.
Proof.
  unfold saved. intros H. rewrite H, String.eqb_refl. reflexivity.
Qed.

Lemma map_saved_absent c v bs :
  ~ In c (categories bs) -> map (saved c v) bs = bs.
Proof.
  induction bs as [|b bs IH]; simpl; intros H; [reflexivity|].
  rewrite saved_other by (intros E; apply H; now left).
  f_equal. apply IH. intros Hin. apply H. now right.
Qed.

Lemma inEditMode_true b st :
  inEditMode b st = true <-> editingCategory st = Some (b_category b).
Proof.
  unfold inEditMode. destruct (editingCategory st) as [c|].
  - destruct (String.eqb_spec c (b_category b)) as [->|N]; split;
      try reflexivity; try discriminate.
    intros [= E]. contradiction.
  - split; discriminate.
Qed.

(** Every event leaves the budget list alone, except a save. *)
Lemma step_budgets st ev st' :
  step st ev st' ->
  budgets st' = budgets st \/
  exists i b, ev = SaveClick i /\ nth_error (budgets st) i = Some b /\
              inEditMode b st = true /\
              budgets st' = map (saved (b_category b) (editValue st))
                                (budgets st).
Proof.
  destruct 1 as [st i b Hb He|st i b v Hb He|st i b Hb He
                |st i b Hb He|st i b Hb|st Ht].
  - left. unfold editButton_onClick. now destruct (negb (lockedForMonth b)).
  - now left.
  - right. exists i, b. repeat split; assumption.
  - now left.
  - now left.
  - now left.
Qed.

Lemma Forall2_lock_le_refl bs : Forall2 lock_le bs bs.
Proof. induction bs; constructor; [split; auto | assumption]. Qed.

Lemma Forall2_lock_le_saved c v bs :
  Forall2 lock_le bs (map (saved c v) bs).
Proof.
  induction bs; simpl; constructor; [|assumption].
  split; [apply saved_category | apply saved_locked].
Qed.

Lemma Forall2_lock_le_trans bs1 bs2 bs3 :
  Forall2 lock_le bs1 bs2 -> Forall2 lock_le bs2 bs3 ->
  Forall2 lock_le bs1 bs3.
Proof.
  intros H; revert bs3.
  induction H as [|b1 b2 l1 l2 [Hc Hl] _ IH]; intros bs3 H23;
    inversion H23 as [|? b3 ? l3 [Hc' Hl'] Hrest]; subst; constructor.
  - split; [congruence | auto].
  - now apply IH.
Qed.

Lemma step_lock_le st ev st' :
  step st ev st' -> Forall2 lock_le (budgets st) (budgets st').
Proof.
  intros H. destruct (step_budgets _ _ _ H) as [->|(i & b & _ & _ & _ & ->)].
  - apply Forall2_lock_le_refl.
  - apply Forall2_lock_le_saved.
Qed.

Lemma steps_lock_le st evs st' :
  steps st evs st' -> Forall2 lock_le (budgets st) (budgets st').
Proof.
  induction 1 as [st|st ev st1 evs st2 Hs _ IH].
  - apply Forall2_lock_le_refl.
  - eapply Forall2_lock_le_trans; [eapply step_lock_le; eassumption | exact IH].
Qed.

Lemma Forall2_nth_error_l {A B} (R : A -> B -> Prop) l l' :
  Forall2 R l l' ->
  forall i a, nth_error l i = Some a ->
              exists a', nth_error l' i = Some a' /\ R a a'.
Proof.
  induction 1 as [|x y l l' Hxy _ IH]; intros [|i] a; simpl; try discriminate.
  - intros [= <-]. eauto.
  - apply IH.
Qed.

Lemma Forall2_nth_error_r {A B} (R : A -> B -> Prop) l l' :
  Forall2 R l l' ->
  forall i a', nth_error l' i = Some a' ->
               exists a, nth_error l i = Some a /\ R a a'.
Proof.
  induction 1 as [|x y l l' Hxy _ IH]; intros [|i] a; simpl; try discriminate.
  - intros [= <-]. eauto.
  - apply IH.
Qed.

Lemma steps_categories st evs st' :
  steps st evs st' -> categories (budgets st') = categories (budgets st).
Proof.
  intros H. apply steps_lock_le in H. unfold categories.
  induction H as [|b b' l l' [Hc _] _ IH]; simpl; congruence.
Qed.

(** Unique categories: the position of a category determines the entry. *)
Lemma NoDup_categories_index bs i j b b' :
  NoDup (categories bs) ->
  nth_error bs i = Some b -> nth_error bs j = Some b' ->
  b_category b = b_category b' -> i = j.
Proof.
  intros Hnd Hi Hj E. unfold categories in Hnd.
  rewrite NoDup_nth_error in Hnd. apply Hnd.
  - rewrite length_map. apply nth_error_Some. now rewrite Hi.
  - rewrite !nth_error_map, Hi, Hj. simpl. now rewrite E.
Qed.

Lemma NoDup_categories_In bs b b' :
  NoDup (categories bs) -> In b bs -> In b' bs ->
  b_category b = b_category b' -> b = b'.
Proof.
  intros Hnd Hb Hb' E.
  apply In_nth_error in Hb as [i Hi]. apply In_nth_error in Hb' as [j Hj].
  assert (i = j) by (eapply NoDup_categories_index; eauto).
  subst j. congruence.
Qed.

Lemma step_editing_unlocked st ev st' :
  NoDup (categories (budgets st)) ->
  editing_unlocked st -> step st ev st' -> editing_unlocked st'.
Proof.
  intros Hnd Hinv Hs.
  destruct Hs as [st i b Hb He|st i b v Hb He|st i b Hb He
                 |st i b Hb He|st i b Hb|st Ht].
  - unfold editButton_onClick.
    destruct (lockedForMonth b) eqn:Hl; simpl; [exact Hinv|].
    intros b' Hin' He'. apply inEditMode_true in He'. simpl in He'.
    injection He' as E.
    assert (b = b') as <-; [|exact Hl].
    eapply NoDup_categories_In; eauto using nth_error_In.
  - exact Hinv.
  - intros b' _ He'. apply inEditMode_true in He'. discriminate.
  - intros b' _ He'. apply inEditMode_true in He'. discriminate.
  - exact Hinv.
  - exact Hinv.
Qed.

Lemma steps_editing_unlocked st evs st' :
  NoDup (categories (budgets st)) ->
  editing_unlocked st -> steps st evs st' -> editing_unlocked st'.
Proof.
  intros Hnd Hinv H. induction H as [st|st ev st1 evs st2 Hs Hss IH].
  - exact Hinv.
  - apply IH.
    + assert (Hc : categories (budgets st1) = categories (budgets st))
        by (apply (steps_categories st [ev] st1); econstructor;
            [eassumption | constructor]).
      now rewrite Hc.
    + eapply step_editing_unlocked; eauto.
Qed.

Lemma reachable_invariant bs st :
  NoDup (categories bs) -> reachable bs st ->
  NoDup (categories (budgets st)) /\ editing_unlocked st.
Proof.
  intros Hnd [evs H]. split.
  - now rewrite (steps_categories _ _ _ H).
  - apply (steps_editing_unlocked (initialState bs) evs st);
      [exact Hnd | | exact H].
    intros b _ He. apply inEditMode_true in He. discriminate.
Qed.

Lemma reachable_step bs st ev st' :
  reachable bs st -> step st ev st' -> reachable bs st'.
Proof.
  intros [evs H] Hs. exists (evs ++ [ev])%list.
  eapply steps_app; [exact H | econstructor; [exact Hs | constructor]].
Qed.

(** From a state that satisfies the invariants, one event keeps every
    locked entry as it is. *)
Lemma step_keeps_locked st ev st' i b :
  editing_unlocked st -> step st ev st' ->
  nth_error (budgets st) i = Some b -> lockedForMonth b = true ->
  nth_error (budgets st') i = Some b.
Proof.
  intros Hinv Hs Hb Hl.
  destruct (step_budgets _ _ _ Hs) as [->|(j & bj & _ & Hj & He & ->)];
    [assumption|].
  rewrite nth_error_map, Hb. simpl. f_equal. apply saved_other.
  intros E. apply inEditMode_true in He.
  assert (Hu : lockedForMonth b = false).
  { apply Hinv; [eapply nth_error_In; eassumption|].
    apply inEditMode_true. now rewrite E. }
  congruence.
Qed.

(** ** The edit controller *)

(** C1.  One-time edit.  Over any session, an entry that is locked stays
    an entry of the same category and stays locked (no event takes
    [lockedForMonth] from true back to false); and once
    [handleSave c] has run, every card of category [c] is locked for
    the rest of the session, so that a click on its edit button, where
    the page offers one, leaves the whole state as it is. *)
Theorem one_time_edit st evs st' :
  steps st evs st' ->
  (forall i b,
      nth_error (budgets st) i = Some b -> lockedForMonth b = true ->
      exists b', nth_error (budgets st') i = Some b' /\
                 b_category b' = b_category b /\ lockedForMonth b' = true) /\
  (forall c st0,
      st = handleSave c st0 ->
      forall i b',
        nth_error (budgets st') i = Some b' -> b_category b' = c ->
        lockedForMonth b' = true /\
        editButton_onClick b' st' = st' /\
        (forall st'', step st' (EditClick i) st'' -> st'' = st')).
Proof.
  intros H. pose proof (steps_lock_le _ _ _ H) as HF.
  assert (Hmono : forall i b,
             nth_error (budgets st) i = Some b -> lockedForMonth b = true ->
             exists b', nth_error (budgets st') i = Some b' /\
                        b_category b' = b_category b /\
                        lockedForMonth b' = true).
  { intros i b Hb Hl.
    destruct (Forall2_nth_error_l _ _ _ HF i b Hb) as (b' & Hb' & Hc & Hk).
    exists b'. auto. }
  split; [exact Hmono|].
  intros c st0 -> i b' Hb' Hc.
  destruct (Forall2_nth_error_r _ _ _ HF i b' Hb') as (b & Hb & Hcb & _).
  rewrite handleSave_budgets, nth_error_map in Hb.
  destruct (nth_error (budgets st0) i) as [b0|] eqn:Hb0; [|discriminate].
  injection Hb as <-.
  rewrite saved_category in Hcb.
  assert (Hl : lockedForMonth b' = true).
  { destruct (Hmono i (saved c (editValue st0) b0)) as (b2 & Hb2 & _ & Hl2).
    - rewrite handleSave_budgets, nth_error_map, Hb0. reflexivity.
    - rewrite saved_same by congruence. reflexivity.
    - congruence. }
  assert (Hno : editButton_onClick b' st' = st')
    by (unfold editButton_onClick; now rewrite Hl).
  repeat split; [exact Hl | exact Hno |].
  intros st'' Hs. inversion Hs as [s j b1 Hb1 He| | | | |]; subst.
  assert (b1 = b') by congruence. now subst b1.
Qed.

Lemma one_time_edit_witness :
  exists st',
    run [CardClick 0; EditClick 1; InputChange 1 2500; CancelClick 1;
         EditClick 2]%nat
        (handleSave "Shopping" (initialState initialBudgets)) = Some st' /\
    forall i b',
      nth_error (budgets st') i = Some b' -> b_category b' = "Shopping" ->
      lockedForMonth b' = true /\
      editButton_onClick b' st' = st' /\
      (forall st'', step st' (EditClick i) st'' -> st'' = st').
Proof.
  eexists.
  match goal with
  | |- ?r = Some ?s /\ _ =>
      assert (R : r = Some s) by (vm_compute; reflexivity)
  end.
  split; [exact R|].
  exact (proj2 (one_time_edit _ _ _ (run_steps _ _ _ R))
               "Shopping" (initialState initialBudgets) eq_refl).
Defined.

(** C3.  From a budget list with unique categories, in every reachable
    state: an event that changes a budget entry is the save of that
    entry's card, the entry was not locked, and it becomes the entry
    with [monthlyBudget = editValue] and [lockedForMonth = true] in one
    update; and over any further session an entry that is locked stays
    exactly as it is, [monthlyBudget] included. *)
Theorem locked_budget_frozen bs st :
  NoDup (categories bs) -> reachable bs st ->
  (forall ev st' i b b',
      step st ev st' ->
      nth_error (budgets st) i = Some b ->
      nth_error (budgets st') i = Some b' ->
      b' <> b ->
      ev = SaveClick i /\ lockedForMonth b = false /\
      b' = mkBudget (b_category b) (editValue st) true) /\
  (forall evs st' i b,
      steps st evs st' ->
      nth_error (budgets st) i = Some b -> lockedForMonth b = true ->
      nth_error (budgets st') i = Some b).
Proof.
  intros Hnd Hr. split.
  - destruct (reachable_invariant _ _ Hnd Hr) as [Hnd' Hinv].
    intros ev st' i b b' Hs Hb Hb' Hne.
    destruct (step_budgets _ _ _ Hs) as [E|(j & bj & -> & Hj & He & E)].
    + rewrite E in Hb'. congruence.
    + rewrite E, nth_error_map, Hb in Hb'. simpl in Hb'. injection Hb' as <-.
      destruct (String.eqb_spec (b_category b) (b_category bj)) as [Ec|Nc].
      * assert (i = j) by (eapply NoDup_categories_index; eauto).
        subst j. assert (bj = b) by congruence. subst bj.
        repeat split.
        -- apply Hinv; [eapply nth_error_In; eassumption | exact He].
        -- now apply saved_same.
      * exfalso. apply Hne. now apply saved_other.
  - intros evs st' i b H. revert Hr i b.
    induction H as [s|s ev s1 evs s2 Hs _ IH]; intros Hr i b Hb Hl.
    + exact Hb.
    + apply IH; [eapply reachable_step; eassumption | | exact Hl].
      eapply step_keeps_locked; eauto.
      now apply (reachable_invariant bs).
Qed.

Lemma locked_budget_frozen_witness :
  exists st st',
    run [EditClick 2; InputChange 2 9000; SaveClick 2]%nat
        (initialState initialBudgets) = Some st /\
    run [EditClick 2; EditClick 1; InputChange 1 1; SaveClick 1; CardClick 2]%nat
        st = Some st' /\
    nth_error (budgets st') 2 = Some (mkBudget "Shopping" 9000 true).
Proof.
  assert (Hnd : NoDup (categories initialBudgets)).
  { unfold categories; simpl.
    repeat (constructor; [simpl; intuition discriminate|]). constructor. }
  eexists. eexists.
  match goal with
  | |- ?r = Some ?s /\ _ =>
      assert (R1 : r = Some s) by (vm_compute; reflexivity)
  end.
  split; [exact R1|].
  match goal with
  | |- ?r = Some ?s /\ _ =>
      assert (R2 : r = Some s) by (vm_compute; reflexivity)
  end.
  split; [exact R2|].
  exact (proj2 (locked_budget_frozen initialBudgets _ Hnd
                  (ex_intro _ _ (run_steps _ _ _ R1)))
               _ _ 2%nat _ (run_steps _ _ _ R2) eq_refl eq_refl).
Defined.

(** C7.  [handleSave c] on a category of the budget list: the entry of
    [c] becomes [{c, editValue, locked}], every entry of another
    category is left as it is, [editingCategory] is cleared and the
    toast is the success message for [c]. *)
Theorem handleSave_effect c st :
  In c (categories (budgets st)) ->
  (exists i b, nth_error (budgets st) i = Some b /\ b_category b = c) /\
  (forall i b,
      nth_error (budgets st) i = Some b -> b_category b = c ->
      nth_error (budgets (handleSave c st)) i
      = Some (mkBudget c (editValue st) true)) /\
  (forall i b,
      nth_error (budgets st) i = Some b -> b_category b <> c ->
      nth_error (budgets (handleSave c st)) i = Some b) /\
  List.length (budgets (handleSave c st)) = List.length (budgets st) /\
  editingCategory (handleSave c st) = None /\
  toast (handleSave c st)
  = Some (mkToast ("Budget for " ++ c ++ " updated & locked for this month!")
                  success).
Proof.
  intros Hin. repeat split.
  - unfold categories in Hin. apply in_map_iff in Hin as (b & Hc & Hb).
    apply In_nth_error in Hb as [i Hi]. eauto.
  - intros i b Hb Hc.
    rewrite handleSave_budgets, nth_error_map, Hb. simpl.
    now rewrite saved_same.
  - intros i b Hb Hc.
    rewrite handleSave_budgets, nth_error_map, Hb. simpl.
    now rewrite saved_other.
  - rewrite handleSave_budgets. apply length_map.
Qed.

Lemma handleSave_effect_witness :
  budgets (handleSave "Shopping"
             (setEditValue 9000 (initialState initialBudgets)))
  = [ mkBudget "Food" 8000 true;
      mkBudget "Entertainment" 4000 false;
      mkBudget "Shopping" 9000 true;
      mkBudget "Travel / Fuel" 6000 false;
      mkBudget "Medical" 3000 false;
      mkBudget "Other" 5000 false ] /\
  nth_error (budgets (handleSave "Shopping"
                        (setEditValue 9000 (initialState initialBudgets)))) 2
  = Some (mkBudget "Shopping" 9000 true).
Proof.
  split; [reflexivity|].
  refine (proj1 (proj2 (handleSave_effect "Shopping"
                          (setEditValue 9000 (initialState initialBudgets)) _))
                2%nat (mkBudget "Shopping" 12000 false) eq_refl eq_refl).
  simpl. auto.
Defined.

(** C8.  The cancel button clears [editingCategory]; the budget list,
    and every other part of the state, is what it was. *)
Theorem cancel_frame st :
  editingCategory (cancelButton_onClick st) = None /\
  budgets (cancelButton_onClick st) = budgets st /\
  editValue (cancelButton_onClick st) = editValue st /\
  expandedCategory (cancelButton_onClick st) = expandedCategory st /\
  toast (cancelButton_onClick st) = toast st /\
  timers (cancelButton_onClick st) = timers st /\
  confettiLog (cancelButton_onClick st) = confettiLog st.
Proof. repeat split. Qed.

(** C10.  [handleSave c] on a category that no budget entry has: the
    budget list is unchanged, and still [editingCategory] is cleared,
    the success toast for [c] is shown with its timer, and the confetti
    burst is fired. *)
Theorem handleSave_unknown_category c st :
  ~ In c (categories (budgets st)) ->
  budgets (handleSave c st) = budgets st /\
  editingCategory (handleSave c st) = None /\
  toast (handleSave c st)
  = Some (mkToast ("Budget for " ++ c ++ " updated & locked for this month!")
                  success) /\
  timers (handleSave c st) = S (timers st) /\
  confettiLog (handleSave c st)
  = (confettiLog st ++ [mkConfetti 60 70 (6 # 10)])%list.
Proof.
  intros Hc. repeat split.
  rewrite handleSave_budgets. now apply map_saved_absent.
Qed.

Lemma handleSave_unknown_category_witness :
  budgets (handleSave "Rent" (setEditValue 700 (initialState initialBudgets)))
  = initialBudgets /\
  toast (handleSave "Rent" (setEditValue 700 (initialState initialBudgets)))
  = Some (mkToast "Budget for Rent updated & locked for this month!" success).
Proof.
  assert (H : ~ In "Rent" (categories
                (budgets (setEditValue 700 (initialState initialBudgets))))).
  { simpl. intuition discriminate. }
  split.
  - exact (proj1 (handleSave_unknown_category "Rent" _ H)).
  - exact (proj1 (proj2 (proj2 (handleSave_unknown_category "Rent" _ H)))).
Defined.

(** ** The expansion controller *)

Lemma isExpanded_true b st :
  isExpanded b st = true <-> expandedCategory st = Some (b_category b).
Proof.
  unfold isExpanded. destruct (expandedCategory st) as [c|].
  - destruct (String.eqb_spec c (b_category b)) as [->|N]; split;
      try reflexivity; try discriminate.
    intros [= E]. contradiction.
  - split; discriminate.
Qed.

Lemma isExpanded_false b st :
  isExpanded b st = false <-> expandedCategory st <> Some (b_category b).
Proof.
  rewrite <- isExpanded_true. destruct (isExpanded b st); split;
    congruence.
Qed.

(** C9, as the code has it.  A click on the card of [c] collapses it if
    [c] was expanded and expands [c] otherwise; at any time the
    expanded cards all have one category; and two clicks in a row lead
    back to the first value when that was none or [c], and to none when
    another category was expanded. *)
Theorem toggle_spec b st :
  (expandedCategory st = Some (b_category b) ->
   expandedCategory (card_onClick b st) = None) /\
  (expandedCategory st <> Some (b_category b) ->
   expandedCategory (card_onClick b st) = Some (b_category b)) /\
  (forall b1 b2,
      isExpanded b1 st = true -> isExpanded b2 st = true ->
      b_category b1 = b_category b2) /\
  (expandedCategory st = None \/ expandedCategory st = Some (b_category b) ->
   expandedCategory (card_onClick b (card_onClick b st))
   = expandedCategory st) /\
  (forall d,
      expandedCategory st = Some d -> d <> b_category b ->
      expandedCategory (card_onClick b (card_onClick b st)) = None).
Proof.
  assert (Hon : expandedCategory st = Some (b_category b) ->
                expandedCategory (card_onClick b st) = None).
  { intros H. apply isExpanded_true in H. unfold card_onClick.
    now rewrite H. }
  assert (Hoff : forall s, expandedCategory s <> Some (b_category b) ->
                 expandedCategory (card_onClick b s) = Some (b_category b)).
  { intros s H. apply isExpanded_false in H. unfold card_onClick.
    now rewrite H. }
  assert (Hon' : forall s, expandedCategory s = Some (b_category b) ->
                 expandedCategory (card_onClick b s) = None).
  { intros s H. apply isExpanded_true in H. unfold card_onClick.
    now rewrite H. }
  repeat split.
  - exact Hon.
  - apply Hoff.
  - intros b1 b2 H1 H2. apply isExpanded_true in H1, H2. congruence.
  - intros [H|H].
    + rewrite Hon', H; [reflexivity|]. apply Hoff. rewrite H. discriminate.
    + rewrite Hoff, H; [reflexivity|]. rewrite Hon'; [discriminate | exact H].
  - intros d H Hd. apply Hon'. apply Hoff. rewrite H. congruence.
Qed.

Lemma toggle_spec_witness :
  expandedCategory
    (card_onClick (mkBudget "Shopping" 12000 false)
       (card_onClick (mkBudget "Shopping" 12000 false)
          (initialState initialBudgets)))
  = expandedCategory (initialState initialBudgets).
Proof.
  apply (toggle_spec (mkBudget "Shopping" 12000 false)
                     (initialState initialBudgets)).
  left. reflexivity.
Defined.

(** With "Food" expanded, two clicks on the "Shopping" card end with no
    card expanded: not the value before the clicks. *)
Lemma toggle_twice_counterexample :
  expandedCategory
    (card_onClick (mkBudget "Shopping" 12000 false)
       (card_onClick (mkBudget "Shopping" 12000 false)
          (card_onClick (mkBudget "Food" 8000 true)
             (initialState initialBudgets))))
  <> expandedCategory
       (card_onClick (mkBudget "Food" 8000 true)
          (initialState initialBudgets)).
Proof. discriminate. Qed.

(** ** Numbers *)

Lemma gt_true a b : gt a b = true <-> b < a.
Proof.
  unfold gt. rewrite negb_true_iff, <- not_true_iff_false, Qle_bool_iff.
  split; [apply Qnot_le_lt | apply Qlt_not_le].
Qed.

Lemma gt_false a b : gt a b = false <-> a <= b.
Proof. unfold gt. now rewrite negb_false_iff, Qle_bool_iff. Qed.

Lemma js_div_nonzero a b : ~ b == 0 -> js_div a b = Some (a / b).
Proof.
  intros H. unfold js_div. destruct (Qeq_bool b 0) eqn:E; [|reflexivity].
  apply Qeq_bool_iff in E. contradiction.
Qed.

(** ** The overall indicator *)

(** The overall percentage is read in binary64: the quotient and the
    product are rounded before [Math.round] sees them. *)

Lemma iter_xO p k : Zpos (Pos.iter xO p k) = (Zpos p * 2 ^ Zpos k)%Z.
Proof.
  rewrite <- Pos2Z.inj_pow, <- Pos2Z.inj_mul. f_equal.
  induction k as [|k IH] using Pos.peano_ind.
  - simpl. now rewrite Pos.mul_comm.
  - rewrite Pos.iter_succ, IH, Pos.pow_succ_r. lia.
Qed.

Lemma double_value_of_positive s p :
  (Zpos p < 2 ^ 53)%Z ->
  Double.value (Double.of_positive s p) == inject_Z (cond_Zopp s (Zpos p)).
Proof.
  intros H. unfold Double.of_positive.
  rewrite (proj2 (Z.ltb_lt _ _) H).
  destruct (53 - Zpos (digits2_pos p))%Z as [|k|k]; cbn [Double.value].
  - now rewrite Z.mul_1_r.
  - unfold Qeq, inject_Z. cbn [Qnum Qden].
    rewrite Pos2Z.inj_pow, Z.mul_1_r.
    destruct s; unfold cond_Zopp; rewrite iter_xO; ring.
  - now rewrite Z.mul_1_r.
Qed.

Lemma double_value_of_Z n :
  (Z.abs n < 2 ^ 53)%Z -> Double.value (Double.of_Z n) == inject_Z n.
Proof.
  destruct n as [|p|p]; intros H; cbn [Double.of_Z].
  - reflexivity.
  - now apply double_value_of_positive.
  - now apply double_value_of_positive.
Qed.

Lemma Qfloor_unique q n :
  inject_Z n <= q -> q < inject_Z (n + 1) -> Qfloor q = n.
Proof.
  intros Hlo Hhi.
  pose proof (Qfloor_le q) as H1. pose proof (Qlt_floor q) as H2.
  assert (Ha : (n < Qfloor q + 1)%Z)
    by (rewrite Zlt_Qlt; eapply Qle_lt_trans; eassumption).
  assert (Hb : (Qfloor q < n + 1)%Z)
    by (rewrite Zlt_Qlt; eapply Qle_lt_trans; eassumption).
  lia.
Qed.

Lemma Qfloor_integer_half n : Qfloor (inject_Z n + (1 # 2)) = n.
Proof.
  apply Qfloor_unique; [|rewrite inject_Z_plus; change (inject_Z 1) with 1];
    lra.
Qed.

(** A finite double with a negative exponent is below half its
    mantissa in magnitude. *)
Lemma double_value_small s m k :
  - inject_Z (Zpos m) <= 2 * Double.value (S754_finite s m (Zneg k)) /\
  2 * Double.value (S754_finite s m (Zneg k)) <= inject_Z (Zpos m).
Proof.
  cbn [Double.value]. unfold Qle, Qmult, Qopp, inject_Z.
  cbn [Qnum Qden]. rewrite Pos.mul_1_l, Pos2Z.inj_pow.
  assert (Hk : (2 <= 2 ^ Zpos k)%Z).
  { change 2%Z with (2 ^ 1)%Z at 1. apply Z.pow_le_mono_r; lia. }
  destruct s; unfold cond_Zopp; split; nia.
Qed.

(** [Math.round] of a finite double is the integer [floor(x + 1/2)] of
    its value. *)
Lemma double_Math_round_value s m e :
  (Zpos m < 2 ^ 53)%Z ->
  Double.value (Double.Math_round (S754_finite s m e))
  == inject_Z (Qfloor (Double.value (S754_finite s m e) + (1 # 2))).
Proof.
  intros Hm. destruct e as [|e|k].
  - cbn [Double.Math_round Double.value]. now rewrite Qfloor_integer_half.
  - cbn [Double.Math_round Double.value]. now rewrite Qfloor_integer_half.
  - cbn [Double.Math_round].
    set (x := S754_finite s m (Zneg k)).
    pose proof (Qfloor_le (Double.value x + (1 # 2))) as Hlo.
    pose proof (Qlt_floor (Double.value x + (1 # 2))) as Hhi.
    destruct (double_value_small s m k) as [Hs1 Hs2]. fold x in Hs1, Hs2.
    assert (Hn : (Z.abs (Qfloor (Double.value x + (1 # 2))) < 2 ^ 53)%Z).
    { rewrite inject_Z_plus in Hhi. change (inject_Z 1) with 1 in Hhi.
      assert (Hm1 : 1 <= inject_Z (Zpos m))
        by (change 1 with (inject_Z 1); rewrite <- Zle_Qle; lia).
      assert (H1 : inject_Z (Qfloor (Double.value x + (1 # 2)))
                   <= inject_Z (Zpos m)) by lra.
      assert (H2 : inject_Z (- Zpos m)
                   <= inject_Z (Qfloor (Double.value x + (1 # 2))))
        by (rewrite inject_Z_opp; lra).
      rewrite <- Zle_Qle in H1, H2. lia. }
    destruct (Qfloor (Double.value x + (1 # 2))) as [|p|p] eqn:En.
    + reflexivity.
    + now apply double_value_of_Z.
    + now apply double_value_of_Z.
Qed.

Lemma double_le_zero_not_gt b :
  Double.le b Double.zero = true -> Double.gt b Double.zero = false.
Proof.
  unfold Double.le, Double.gt, SFleb, SFltb, Double.zero.
  destruct b as [s|s| |s m e]; simpl; try reflexivity; try discriminate.
  - now destruct s.
  - now destruct s.
Qed.

(** C2.  In binary64, for every budget list and transaction list:
    when [totalBudget > 0], [spentPercentage] is [Math.round] of the
    double [(totalSpent / totalBudget) * 100]; when [totalBudget <= 0],
    and whenever the test [totalBudget > 0] fails, it is 0; for the
    empty budget list [totalBudget] is 0 and [spentPercentage] is 0.
    [Math.round] of a finite double is the integer within one half of
    it, a tie going up. *)
Theorem double_spentPercentage_spec
  (bs : list Double.CategoryBudget) (txs : list Double.Transaction) :
  (Double.gt (Double.totalBudget bs) Double.zero = true ->
   Double.spentPercentage bs txs
   = Double.Math_round
       (Double.mul (Double.div (Double.totalSpent txs)
                               (Double.totalBudget bs))
                   (Double.of_Z 100))) /\
  (Double.le (Double.totalBudget bs) Double.zero = true ->
   Double.spentPercentage bs txs = Double.zero) /\
  (Double.gt (Double.totalBudget bs) Double.zero = false ->
   Double.spentPercentage bs txs = Double.zero) /\
  (Double.totalBudget [] = Double.zero /\
   Double.spentPercentage [] txs = Double.zero) /\
  (forall s m e,
      (Zpos m < 2 ^ 53)%Z ->
      exists n : Z,
        Double.value (Double.Math_round (S754_finite s m e)) == inject_Z n /\
        inject_Z n - (1 # 2) <= Double.value (S754_finite s m e) /\
        Double.value (S754_finite s m e) < inject_Z n + (1 # 2)).
Proof.
  unfold Double.spentPercentage. repeat split.
  - intros H. now rewrite H.
  - intros H. now rewrite (double_le_zero_not_gt _ H).
  - intros H. now rewrite H.
  - intros s m e Hm.
    exists (Qfloor (Double.value (S754_finite s m e) + (1 # 2))).
    split; [now apply double_Math_round_value|].
    pose proof (Qfloor_le (Double.value (S754_finite s m e) + (1 # 2))).
    pose proof (Qlt_floor (Double.value (S754_finite s m e) + (1 # 2)))
      as Hhi.
    rewrite inject_Z_plus in Hhi. change (inject_Z 1) with 1 in Hhi.
    split; lra.
Qed.

Lemma double_spentPercentage_spec_witness :
  double_spentPercentage initialBudgets mockTransactions = Double.of_Z 29 /\
  double_spentPercentage [mkBudget "Other" (-5) false] mockTransactions
  = Double.zero /\
  exists n : Z,
    Double.value (Double.Math_round (Double.of_Q (5 # 2))) == inject_Z n /\
    inject_Z n - (1 # 2) <= Double.value (Double.of_Q (5 # 2)) /\
    Double.value (Double.of_Q (5 # 2)) < inject_Z n + (1 # 2).
Proof.
  split; [|split].
  - unfold double_spentPercentage.
    rewrite (proj1 (double_spentPercentage_spec
                      (map double_budget initialBudgets)
                      (map double_transaction mockTransactions)))
      by (vm_compute; reflexivity).
    vm_compute. reflexivity.
  - apply (proj1 (proj2 (double_spentPercentage_spec
                           (map double_budget [mkBudget "Other" (-5) false])
                           (map double_transaction mockTransactions)))).
    vm_compute. reflexivity.
  - assert (E : Double.of_Q (5 # 2)
                = S754_finite false 5629499534213120 (-51))
      by (vm_compute; reflexivity).
    rewrite E.
    apply (proj2 (proj2 (proj2 (proj2
             (double_spentPercentage_spec [] []))))).
    reflexivity.
Defined.

(** The values the page shows where the exact percentage sits on a
    half: a total budget of 280 gives 3992, not 3993, and a total of
    15856.737588652482 gives 71, the warning tier. *)
Example double_percentage_below_half :
  double_spentPercentage [mkBudget "Food" 280 false] mockTransactions
  = Double.of_Z 3992 /\
  spentPercentage [mkBudget "Food" 280 false] mockTransactions = Some 3993.
Proof. split; vm_compute; reflexivity. Qed.

Example double_percentage_on_half :
  double_spentPercentage
    [mkBudget "Food" 8000 true;
     mkBudget "Entertainment" (7856737588652482 # 1000000000000) true]
    mockTransactions
  = Double.of_Z 71.
Proof. vm_compute. reflexivity. Qed.

(** A total budget of 16000 gives 70 in both readings. *)
Example double_percentage_seventy :
  double_spentPercentage
    [mkBudget "Food" 8000 true; mkBudget "Entertainment" 1000 true;
     mkBudget "Shopping" 3000 true; mkBudget "Travel / Fuel" 2000 true;
     mkBudget "Medical" 1000 true; mkBudget "Other" 1000 true]
    mockTransactions
  = Double.of_Z 70.
Proof. vm_compute. reflexivity. Qed.

(** Sums of doubles round: 0.1 + 0.1 + 0.4 is not 0.5 + 0.1. *)
Example double_sums_round :
  Double.add (Double.add (Double.of_Q (1 # 10)) (Double.of_Q (1 # 10)))
             (Double.of_Q (4 # 10))
  <> Double.add (Double.of_Q (5 # 10)) (Double.of_Q (1 # 10)).
Proof. vm_compute. discriminate. Qed.

(** On the seed data the two readings agree, and the spend per
    category adds up to the total in binary64 as well. *)
Example double_totalSpent_mock :
  Double.totalSpent (map double_transaction mockTransactions)
  = Double.of_Z 11179.
Proof. vm_compute. reflexivity. Qed.

Example double_partition_mock :
  fold_left Double.add
            (map (Double.getSpentByCategory
                    (map double_transaction mockTransactions))
                 (distinct (map category mockTransactions)))
            Double.zero
  = Double.totalSpent (map double_transaction mockTransactions).
Proof. vm_compute. reflexivity. Qed.

(** C6, as the code has it.  The ring and the badge are normal up to
    and including 70, warning above 70 up to and including 90, and
    danger above 90. *)
Theorem colour_tier p :
  (p <= 70 ->
   CircularProgress_color p = ring_class normal /\
   badge_color p = badge_class normal) /\
  (70 < p /\ p <= 90 ->
   CircularProgress_color p = ring_class warning /\
   badge_color p = badge_class warning) /\
  (90 < p ->
   CircularProgress_color p = ring_class danger /\
   badge_color p = badge_class danger).
Proof.
  unfold CircularProgress_color, badge_color. repeat split.
  - rewrite (proj2 (gt_false p 90)), (proj2 (gt_false p 70)) by lra.
    reflexivity.
  - rewrite (proj2 (gt_false p 90)), (proj2 (gt_false p 70)) by lra.
    reflexivity.
  - destruct H as [H1 H2].
    now rewrite (proj2 (gt_false p 90)), (proj2 (gt_true p 70)).
  - destruct H as [H1 H2].
    now rewrite (proj2 (gt_false p 90)), (proj2 (gt_true p 70)).
  - now rewrite (proj2 (gt_true p 90)).
  - now rewrite (proj2 (gt_true p 90)).
Qed.

Lemma colour_tier_witness :
  CircularProgress_color 85 = "text-amber-500" /\
  badge_color 85 = "bg-amber-50 text-amber-700 border-amber-100".
Proof.
  apply (colour_tier 85). split; [reflexivity | vm_compute; discriminate].
Defined.

(** After the five open budgets are saved as 1000, 3000, 2000, 1000 and
    1000 the total budget is 16000 and the 11179 spent round to 70
    percent; the specification's tier for 70 is warning, the page
    renders it normal. *)
Lemma colour_tier_counterexample :
  exists st,
    run [EditClick 1; InputChange 1 1000; SaveClick 1;
         EditClick 2; InputChange 2 3000; SaveClick 2;
         EditClick 3; InputChange 3 2000; SaveClick 3;
         EditClick 4; InputChange 4 1000; SaveClick 4;
         EditClick 5; InputChange 5 1000; SaveClick 5]%nat
        (initialState initialBudgets) = Some st /\
    spentPercentage (budgets st) mockTransactions = Some 70 /\
    spec_tier 70 = warning /\
    CircularProgress_color 70 = ring_class normal /\
    badge_color 70 = badge_class normal /\
    CircularProgress_color 70 <> ring_class (spec_tier 70) /\
    badge_color 70 <> badge_class (spec_tier 70).
Proof.
  eexists. split; [vm_compute; reflexivity|].
  repeat split; try (vm_compute; reflexivity); vm_compute; discriminate.
Qed.

(** ** Sums *)

Lemma fold_sum_shift {A : Type} (f : A -> Q) l : forall a,
  fold_left (fun sum x => sum + f x) l a
  == a + fold_left (fun sum x => sum + f x) l 0.
Proof.
  induction l as [|x l IH]; intros a; simpl.
  - ring.
  - rewrite (IH (a + f x)), (IH (0 + f x)). ring.
Qed.

Lemma fold_sum_cons {A : Type} (f : A -> Q) x l :
  fold_left (fun sum x => sum + f x) (x :: l) 0
  == f x + fold_left (fun sum x => sum + f x) l 0.
Proof. simpl. rewrite fold_sum_shift. ring. Qed.

Lemma Qsum_perm l1 l2 : Permutation l1 l2 -> Qsum l1 == Qsum l2.
Proof.
  induction 1 as [|x l1 l2 _ IH|x y l|l1 l2 l3 _ IH1 _ IH2]; simpl.
  - reflexivity.
  - now rewrite IH.
  - ring.
  - now rewrite IH1.
Qed.

Lemma Qsum_map_ext {A : Type} (f g : A -> Q) l :
  (forall x, In x l -> f x == g x) -> Qsum (map f l) == Qsum (map g l).
Proof.
  induction l as [|x l IH]; simpl; intros H; [reflexivity|].
  rewrite (H x) by now left. rewrite IH; [reflexivity|].
  intros y Hy. apply H. now right.
Qed.

Lemma Qsum_map_plus {A : Type} (f g : A -> Q) l :
  Qsum (map (fun x => f x + g x) l) == Qsum (map f l) + Qsum (map g l).
Proof.
  induction l as [|x l IH]; simpl; [ring|]. rewrite IH. ring.
Qed.

Lemma Qsum_map_zero {A : Type} (f : A -> Q) l :
  (forall x, In x l -> f x == 0) -> Qsum (map f l) == 0.
Proof.
  induction l as [|x l IH]; simpl; intros H; [reflexivity|].
  rewrite (H x) by now left. rewrite IH; [ring|].
  intros y Hy. apply H. now right.
Qed.

(** The amount of [t] counted for category [c]. *)
Lemma Qsum_indicator (k : string) (a : Q) cs :
  NoDup cs -> In k cs ->
  Qsum (map (fun c => if String.eqb k c then a else 0) cs) == a.
Proof.
  induction cs as [|c cs IH]; simpl; intros Hnd Hin; [contradiction|].
  inversion Hnd as [|? ? Hnotin Hnd']; subst.
  destruct (String.eqb_spec k c) as [->|Hne].
  - rewrite Qsum_map_zero; [ring|].
    intros x Hx. destruct (String.eqb_spec c x) as [->|_];
      [contradiction | reflexivity].
  - destruct Hin as [E|Hin]; [congruence|].
    rewrite IH by assumption. ring.
Qed.

Lemma getSpentByCategory_cons t txs c :
  getSpentByCategory (t :: txs) c
  == (if String.eqb (category t) c then amount t else 0)
     + getSpentByCategory txs c.
Proof.
  unfold getSpentByCategory. simpl.
  destruct (String.eqb (category t) c).
  - apply fold_sum_cons.
  - ring.
Qed.

Lemma totalSpent_cons t txs :
  totalSpent (t :: txs) == amount t + totalSpent txs.
Proof. apply fold_sum_cons. Qed.

(** Any duplicate-free list of categories that covers the transactions
    splits the total. *)
Lemma spent_partition txs : forall cs,
  NoDup cs -> (forall t, In t txs -> In (category t) cs) ->
  Qsum (map (getSpentByCategory txs) cs) == totalSpent txs.
Proof.
  induction txs as [|t txs IH]; intros cs Hnd Hcov.
  - apply Qsum_map_zero. reflexivity.
  - rewrite (Qsum_map_ext _
               (fun c => (if String.eqb (category t) c then amount t else 0)
                         + getSpentByCategory txs c))
      by (intros; apply getSpentByCategory_cons).
    rewrite Qsum_map_plus, Qsum_indicator, IH, totalSpent_cons;
      auto with datatypes.
    reflexivity.
Qed.

(** ** Distinct categories *)

Lemma distinct_In l x : In x (distinct l) <-> In x l.
Proof.
  induction l as [|y l IH]; simpl; [tauto|].
  rewrite filter_In, IH.
  destruct (String.eqb_spec x y) as [->|Hne]; simpl; intuition congruence.
Qed.

Lemma distinct_NoDup l : NoDup (distinct l).
Proof.
  induction l as [|y l IH]; simpl; constructor.
  - rewrite filter_In, String.eqb_refl. simpl. intuition discriminate.
  - now apply NoDup_filter.
Qed.

Lemma spent_distinct txs :
  Qsum (map (getSpentByCategory txs) (distinct (map category txs)))
  == totalSpent txs.
Proof.
  apply spent_partition; [apply distinct_NoDup|].
  intros t Ht. apply distinct_In. now apply in_map.
Qed.

(** ** The totals object *)

Lemma own_set_same m k v : own (set m k v) k = Some v.
Proof.
  induction m as [|[k' v'] m IH]; simpl.
  - now rewrite String.eqb_refl.
  - destruct (String.eqb k' k) eqn:E; simpl; rewrite E; auto.
Qed.

Lemma own_set_other m k v k' : k <> k' -> own (set m k v) k' = own m k'.
Proof.
  intros Hne. induction m as [|[k0 v0] m IH]; simpl.
  - destruct (String.eqb_spec k k'); [contradiction | reflexivity].
  - destruct (String.eqb_spec k0 k) as [->|Hk]; simpl.
    + destruct (String.eqb_spec k k'); [contradiction | reflexivity].
    + now rewrite IH.
Qed.

Lemma keys_set m k v :
  map fst (set m k v)
  = if has_key m k then map fst m else (map fst m ++ [k])%list.
Proof.
  unfold has_key. induction m as [|[k' v'] m IH]; simpl; [reflexivity|].
  rewrite (String.eqb_sym k k').
  destruct (String.eqb k' k); simpl; [reflexivity|].
  rewrite IH. now destruct (existsb (String.eqb k) (map fst m)).
Qed.

Lemma own_Some_In m k : In k (map fst m) -> exists v, own m k = Some v.
Proof.
  induction m as [|[k' v'] m IH]; simpl; [contradiction|].
  intros [->|H].
  - rewrite String.eqb_refl. eauto.
  - destruct (String.eqb k' k); eauto.
Qed.

Lemma or_zero_eq v : or_zero (Some v) == v.
Proof.
  simpl. destruct (Qeq_bool v 0) eqn:E; [|reflexivity].
  apply Qeq_bool_iff in E. now rewrite E.
Qed.

Lemma own_totals_fold txs :
  own_totals txs = fold_left add_own txs [].
Proof. reflexivity. Qed.

Lemma filter_filter_comm {A : Type} (p q : A -> bool) l :
  filter p (filter q l) = filter (fun x => q x && p x) l.
Proof.
  induction l as [|x l IH]; simpl; [reflexivity|].
  destruct (q x); simpl; [destruct (p x)|]; now rewrite IH.
Qed.

Lemma has_key_set m k v c :
  has_key (set m k v) c = has_key m c || String.eqb c k.
Proof.
  unfold has_key at 1. rewrite keys_set.
  destruct (has_key m k) eqn:Hk.
  - fold (has_key m c).
    destruct (String.eqb_spec c k) as [->|_];
      [now rewrite Hk | now rewrite orb_false_r].
  - rewrite existsb_app. simpl. now rewrite orb_false_r.
Qed.

Lemma totals_keys txs : forall m,
  map fst (fold_left add_own txs m)
  = (map fst m
     ++ filter (fun c => negb (has_key m c)) (distinct (map category txs)))%list.
Proof.
  induction txs as [|t txs IH]; intros m; simpl.
  - now rewrite app_nil_r.
  - rewrite IH. unfold add_own at 1 2. rewrite keys_set.
    set (k := category t). set (D := distinct (map category txs)).
    set (v := or_zero (own m k) + amount t).
    assert (E : filter (fun c => negb (has_key (set m k v) c)) D
                = filter (fun c => negb (has_key m c))
                         (filter (fun y => negb (String.eqb y k)) D)).
    { rewrite filter_filter_comm. apply filter_ext.
      intros c. rewrite has_key_set, negb_orb. apply andb_comm. }
    rewrite E. destruct (has_key m k) eqn:Hk; simpl.
    + reflexivity.
    + now rewrite <- app_assoc.
Qed.

Lemma own_totals_keys txs :
  map fst (own_totals txs) = distinct (map category txs).
Proof.
  rewrite own_totals_fold, totals_keys. simpl.
  induction (distinct (map category txs)); simpl; congruence.
Qed.

Lemma totals_get txs : forall m c v,
  own (fold_left add_own txs m) c = Some v ->
  v == or_zero (own m c) + getSpentByCategory txs c.
Proof.
  induction txs as [|t txs IH]; intros m c v; simpl.
  - intros ->. rewrite or_zero_eq. unfold getSpentByCategory. simpl. ring.
  - intros H. apply IH in H. rewrite H, getSpentByCategory_cons.
    unfold add_own.
    destruct (String.eqb_spec (category t) c) as [->|Hne].
    + rewrite own_set_same, or_zero_eq. ring.
    + rewrite own_set_other by assumption. ring.
Qed.

Lemma own_totals_get txs c v :
  own (own_totals txs) c = Some v -> v == getSpentByCategory txs c.
Proof.
  rewrite own_totals_fold. intros H. apply totals_get in H.
  rewrite H. simpl. ring.
Qed.

(** ** The order of own property keys *)

Lemma insert_index_perm x l : Permutation (insert_index x l) (x :: l).
Proof.
  induction l as [|y l IH]; simpl; [reflexivity|].
  destruct (fst x <=? fst y)%N; [reflexivity|].
  rewrite IH. apply perm_swap.
Qed.

Lemma sort_index_perm l : Permutation (sort_index l) l.
Proof.
  induction l as [|x l IH]; simpl; [reflexivity|].
  rewrite insert_index_perm. now constructor.
Qed.



Lemma index_keys_snd ks : map snd (index_keys ks) = filter is_index ks.
Proof.
  unfold index_keys, is_index.
  induction ks as [|k ks IH]; simpl; [reflexivity|].
  destruct (array_index k); simpl; now rewrite IH.
Qed.


Lemma Permutation_partition {A : Type} (p : A -> bool) l :
  Permutation (filter p l ++ filter (fun x => negb (p x)) l) l.
Proof.
  induction l as [|x l IH]; simpl; [reflexivity|].
  destruct (p x); simpl.
  - now constructor.
  - rewrite <- Permutation_middle. now constructor.
Qed.

Lemma OwnPropertyKeys_perm ks : Permutation (OwnPropertyKeys ks) ks.
Proof.
  unfold OwnPropertyKeys.
  rewrite (Permutation_map snd (sort_index_perm (index_keys ks))).
  rewrite index_keys_snd. apply Permutation_partition.
Qed.

Lemma OwnPropertyKeys_In ks k : In k (OwnPropertyKeys ks) <-> In k ks.
Proof.
  split; apply Permutation_in;
    [apply OwnPropertyKeys_perm | symmetry; apply OwnPropertyKeys_perm].
Qed.



Lemma Object_entries_keys m :
  map fst (Object_entries m) = OwnPropertyKeys (map fst m).
Proof.
  unfold Object_entries.
  assert (H : forall k, In k (OwnPropertyKeys (map fst m)) ->
                        exists v, own m k = Some v).
  { intros k Hk. apply own_Some_In. now apply OwnPropertyKeys_In. }
  induction (OwnPropertyKeys (map fst m)) as [|k ks IH]; simpl;
    [reflexivity|].
  destruct (H k) as [v Hv]; [now left|]. rewrite Hv. simpl. f_equal.
  apply IH. intros k' Hk'. apply H. now right.
Qed.

Lemma Object_entries_own m k v :
  In (k, v) (Object_entries m) -> own m k = Some v.
Proof.
  unfold Object_entries. rewrite in_flat_map. intros (k' & _ & H).
  destruct (own m k') as [v'|] eqn:E; [|contradiction].
  destruct H as [[= <- <-]|[]]. exact E.
Qed.

(** ** Building and sorting the entries *)

Lemma mapM_total {A B : Type} (f : A -> option B) (g : A -> B) l :
  (forall x, f x = Some (g x)) -> mapM f l = Some (map g l).
Proof.
  intros H. induction l as [|x l IH]; simpl; [reflexivity|].
  now rewrite H, IH.
Qed.

Lemma stat_entry_total total kv : stat_entry total kv = Some (stat_of total kv).
Proof.
  unfold stat_entry, stat_of. destruct (gt total 0) eqn:E; [|reflexivity].
  apply gt_true in E. rewrite js_div_nonzero by lra. reflexivity.
Qed.

Section SortByKey.
Context {A : Type} (f : A -> Q).

(** The comparator [(a, b) => f b - f a]. *)
Let cmp (a b : A) : Q := f b - f a.

Lemma sort_insert_perm x l : Permutation (sort_insert cmp x l) (x :: l).
Proof.
  induction l as [|y l IH]; simpl; [reflexivity|].
  destruct (Qle_bool (cmp x y) 0); [reflexivity|].
  rewrite IH. apply perm_swap.
Qed.

Lemma Array_sort_perm l : Permutation (Array_sort cmp l) l.
Proof.
  induction l as [|x l IH]; simpl; [reflexivity|].
  rewrite sort_insert_perm. now constructor.
Qed.

Lemma sort_insert_sorted x l :
  StronglySorted (fun a b => f b <= f a) l ->
  StronglySorted (fun a b => f b <= f a) (sort_insert cmp x l).
Proof.
  induction 1 as [|y l Hs IH Hy]; simpl.
  - repeat constructor.
  - destruct (Qle_bool (cmp x y) 0) eqn:E.
    + apply Qle_bool_iff in E. unfold cmp in E.
      constructor; [now constructor|].
      constructor; [lra|].
      eapply Forall_impl; [|exact Hy]. simpl. intros z Hz. lra.
    + assert (Hlt : f x <= f y).
      { destruct (Qlt_le_dec (f y) (f x)) as [Hc|Hc]; [|exact Hc].
        assert (Qle_bool (cmp x y) 0 = true)
          by (apply Qle_bool_iff; unfold cmp; lra).
        congruence. }
      constructor; [exact IH|].
      eapply Permutation_Forall; [symmetry; apply sort_insert_perm|].
      constructor; [exact Hlt | exact Hy].
Qed.

Lemma Array_sort_sorted l :
  StronglySorted (fun a b => f b <= f a) (Array_sort cmp l).
Proof.
  induction l as [|x l IH]; simpl; [constructor|].
  now apply sort_insert_sorted.
Qed.


End SortByKey.

(** ** [categoryStats] *)

Lemma add_to_totals_own m t :
  inherited_name (category t) = false ->
  add_to_totals m t = Some (add_own m t).
Proof.
  unfold inherited_name, add_to_totals, get, add_own, or_zero.
  intros H. apply orb_false_iff in H as [Hp Hf].
  destruct (own m (category t)) as [v|]; [reflexivity|].
  now rewrite Hp, Hf.
Qed.

Lemma totals_loop_own txs : forall m,
  own_names txs = true ->
  totals_loop m txs = Some (fold_left add_own txs m).
Proof.
  unfold own_names.
  induction txs as [|t txs IH]; intros m H; [reflexivity|].
  cbn [forallb] in H. apply andb_true_iff in H as [Ht H].
  apply negb_true_iff in Ht.
  cbn [totals_loop fold_left]. rewrite (add_to_totals_own m t Ht).
  cbn [bind]. now apply IH.
Qed.

Lemma category_totals_own txs :
  own_names txs = true -> category_totals txs = Some (own_totals txs).
Proof. intros H. now apply totals_loop_own. Qed.

Lemma categoryStats_eq txs :
  own_names txs = true ->
  categoryStats txs
  = Some (Array_sort (fun a b => s_amount b - s_amount a)
            (map (stat_of (totalSpent txs))
                 (Object_entries (own_totals txs)))).
Proof.
  intros H. unfold categoryStats. rewrite (category_totals_own txs H).
  cbn [bind].
  rewrite (mapM_total _ (stat_of (totalSpent txs)))
    by apply stat_entry_total.
  reflexivity.
Qed.

Lemma entries_keys txs :
  map fst (Object_entries (own_totals txs))
  = OwnPropertyKeys (distinct (map category txs)).
Proof. now rewrite Object_entries_keys, own_totals_keys. Qed.

Lemma entries_amount txs kv :
  In kv (Object_entries (own_totals txs)) ->
  snd kv == getSpentByCategory txs (fst kv).
Proof.
  destruct kv as [k v]. intros H. simpl.
  apply own_totals_get. now apply Object_entries_own.
Qed.




Lemma totalSpent_nonneg txs :
  Forall (fun t => 0 <= amount t) txs -> 0 <= totalSpent txs.
Proof.
  induction 1 as [|t txs Ht _ IH].
  - unfold totalSpent. simpl. lra.
  - rewrite totalSpent_cons. lra.
Qed.




(** C5.  For integer amounts that binary64 adds exactly and category
    names that are not names of members of [Object.prototype], as in
    the seed data: the spend per category, summed over the distinct
    categories of the transactions, is [totalSpent]; so is the spend of
    any one category plus that of all the others; and [categoryStats]
    has a value whose amounts sum to [totalSpent]. *)
Theorem partition_property txs :
  exact_sums (map amount txs) = true ->
  own_names txs = true ->
  Qsum (map (getSpentByCategory txs) (distinct (map category txs)))
  == totalSpent txs /\
  (forall c,
      getSpentByCategory txs c
      + Qsum (map (getSpentByCategory txs)
                  (filter (fun d => negb (String.eqb d c))
                          (distinct (map category txs))))
      == totalSpent txs) /\
  exists stats,
    categoryStats txs = Some stats /\
    Qsum (map s_amount stats) == totalSpent txs.
Proof.
  intros _ Hown.
  split; [apply spent_distinct|]. split.
  - intros c.
    change (Qsum (map (getSpentByCategory txs)
                      (c :: filter (fun d => negb (String.eqb d c))
                                   (distinct (map category txs))))
            == totalSpent txs).
    apply spent_partition.
    + constructor.
      * rewrite filter_In, String.eqb_refl. simpl. intuition discriminate.
      * apply NoDup_filter, distinct_NoDup.
    + intros t Ht.
      destruct (String.eqb_spec (category t) c) as [E|Hne]; [now left|].
      right. apply filter_In. split.
      * apply distinct_In. now apply in_map.
      * now rewrite (proj2 (String.eqb_neq _ _) Hne).
  - eexists. split; [now apply categoryStats_eq|].
    rewrite (Qsum_perm _ _
               (Permutation_map s_amount (Array_sort_perm s_amount _))).
    rewrite map_map.
    rewrite (Qsum_map_ext _ (fun kv => getSpentByCategory txs (fst kv)))
      by (intros kv Hkv; apply (entries_amount txs kv Hkv)).
    rewrite <- (map_map fst (getSpentByCategory txs)), entries_keys.
    rewrite (Qsum_perm _ _
               (Permutation_map (getSpentByCategory txs)
                  (OwnPropertyKeys_perm _))).
    apply spent_distinct.
Qed.

Lemma partition_property_witness :
  Qsum (map (getSpentByCategory mockTransactions)
            (distinct (map category mockTransactions)))
  == totalSpent mockTransactions /\
  exists stats,
    categoryStats mockTransactions = Some stats /\
    Qsum (map s_amount stats) == totalSpent mockTransactions.
Proof.
  assert (Hex : exact_sums (map amount mockTransactions) = true)
    by (vm_compute; reflexivity).
  assert (Hown : own_names mockTransactions = true)
    by (vm_compute; reflexivity).
  destruct (partition_property mockTransactions Hex Hown)
    as (Hsum & _ & Hstats).
  split; [exact Hsum | exact Hstats].
Defined.

(** * More of the page *)

(** ** Invariants of every session *)

Lemma steps_invariant (P : State -> Prop) :
  (forall st ev st', P st -> step st ev st' -> P st') ->
  forall st evs st', steps st evs st' -> P st -> P st'.
Proof.
  intros Hstep st evs st' H. induction H as [|st ev st1 evs st2 Hs _ IH];
    eauto.
Qed.

Lemma step_categories st ev st' :
  step st ev st' -> categories (budgets st') = categories (budgets st).
Proof.
  intros H. apply (steps_categories st [ev] st').
  econstructor; [exact H | constructor].
Qed.

Lemma nth_error_category_In bs i b :
  nth_error bs i = Some b -> In (b_category b) (categories bs).
Proof. intros H. apply in_map. eapply nth_error_In; eassumption. Qed.

(** X1.  The toast of every reachable state is either absent or the
    success message of a save of one of the budget categories, and
    while it is shown a timer that will clear it is pending. *)
Theorem toast_is_a_pending_save_message bs st :
  reachable bs st ->
  forall t, toast st = Some t ->
            type t = success /\
            (exists c, In c (categories bs) /\
                       message t
                       = "Budget for " ++ c
                         ++ " updated & locked for this month!") /\
            (0 < timers st)%nat.
Proof.
  intros [evs H].
  assert (Hinv : categories (budgets st) = categories bs /\
                 toast_of_a_save bs st).
  { refine (steps_invariant
              (fun s => categories (budgets s) = categories bs /\
                        toast_of_a_save bs s)
              _ _ _ _ H _).
    2: { split; [reflexivity|]. intros t Ht. discriminate. }
    clear. intros st ev st' [Hc Ht] Hs. split.
    - now rewrite (step_categories _ _ _ Hs).
    - destruct Hs as [st i b Hb He|st i b v Hb He|st i b Hb He
                     |st i b Hb He|st i b Hb|st Hpos].
      + unfold editButton_onClick.
        destruct (negb (lockedForMonth b)); exact Ht.
      + exact Ht.
      + intros t [= <-]. simpl. repeat split; [|lia].
        exists (b_category b). split; [|reflexivity].
        rewrite <- Hc. eapply nth_error_category_In; eassumption.
      + exact Ht.
      + exact Ht.
      + intros t E. discriminate. }
  exact (proj2 Hinv).
Qed.

Lemma toast_is_a_pending_save_message_witness :
  exists st,
    run [EditClick 1; InputChange 1 2500; SaveClick 1; CardClick 0]%nat
        (initialState initialBudgets) = Some st /\
    forall t, toast st = Some t ->
              type t = success /\
              (exists c, In c (categories initialBudgets) /\
                         message t
                         = "Budget for " ++ c
                           ++ " updated & locked for this month!") /\
              (0 < timers st)%nat.
Proof.
  eexists.
  match goal with
  | |- ?r = Some ?s /\ _ =>
      assert (R : r = Some s) by (vm_compute; reflexivity)
  end.
  split; [exact R|].
  exact (toast_is_a_pending_save_message initialBudgets _
           (ex_intro _ _ (run_steps _ _ _ R))).
Defined.

(** X2.  In every reachable state the category under edit and the
    expanded category, when there is one, are categories of the budget
    list: the input row, the save button and the transaction list only
    ever belong to a card that exists. *)
Theorem edit_and_expansion_name_cards bs st :
  reachable bs st ->
  (forall c, editingCategory st = Some c -> In c (categories bs)) /\
  (forall c, expandedCategory st = Some c -> In c (categories bs)).
Proof.
  intros [evs H].
  assert (Hinv : categories (budgets st) = categories bs /\
                 names_a_card bs (editingCategory st) /\
                 names_a_card bs (expandedCategory st)).
  { refine (steps_invariant
              (fun s => categories (budgets s) = categories bs /\
                        names_a_card bs (editingCategory s) /\
                        names_a_card bs (expandedCategory s))
              _ _ _ _ H _).
    2: { repeat split; intros c Hc; discriminate. }
    clear. intros st ev st' (Hc & Hed & Hex) Hs.
    split; [now rewrite (step_categories _ _ _ Hs)|].
    destruct Hs as [st i b Hb He|st i b v Hb He|st i b Hb He
                   |st i b Hb He|st i b Hb|st Hpos].
    - unfold editButton_onClick.
      destruct (negb (lockedForMonth b)); [|now split].
      split; [|exact Hex]. intros c [= <-]. rewrite <- Hc.
      eapply nth_error_category_In; eassumption.
    - now split.
    - split; [intros c E; discriminate | exact Hex].
    - split; [intros c E; discriminate | exact Hex].
    - split; [exact Hed|]. unfold card_onClick. simpl.
      destruct (isExpanded b st); intros c [= <-]. rewrite <- Hc.
      eapply nth_error_category_In; eassumption.
    - now split. }
  exact (proj2 Hinv).
Qed.

Lemma edit_and_expansion_name_cards_witness :
  exists st,
    run [CardClick 3; EditClick 4; InputChange 4 100]%nat
        (initialState initialBudgets) = Some st /\
    (forall c, editingCategory st = Some c ->
               In c (categories initialBudgets)) /\
    (forall c, expandedCategory st = Some c ->
               In c (categories initialBudgets)).
Proof.
  eexists.
  match goal with
  | |- ?r = Some ?s /\ _ =>
      assert (R : r = Some s) by (vm_compute; reflexivity)
  end.
  split; [exact R|].
  exact (edit_and_expansion_name_cards initialBudgets _
           (ex_intro _ _ (run_steps _ _ _ R))).
Defined.

(** X3.  No event adds, removes, reorders or renames a budget card: over
    any session the list of categories is what it was. *)
Theorem session_keeps_cards st evs st' :
  steps st evs st' ->
  map b_category (budgets st') = map b_category (budgets st) /\
  List.length (budgets st') = List.length (budgets st).
Proof.
  intros H. pose proof (steps_categories _ _ _ H) as Hc.
  split; [exact Hc|].
  unfold categories in Hc.
  now rewrite <- (length_map b_category (budgets st')), Hc, length_map.
Qed.

Lemma session_keeps_cards_witness :
  exists st,
    run [EditClick 1; InputChange 1 2500; SaveClick 1; CardClick 0]%nat
        (initialState initialBudgets) = Some st /\
    map b_category (budgets st) = map b_category initialBudgets.
Proof.
  eexists.
  match goal with
  | |- ?r = Some ?s /\ _ =>
      assert (R : r = Some s) by (vm_compute; reflexivity)
  end.
  split; [exact R|].
  exact (proj1 (session_keeps_cards _ _ _ (run_steps _ _ _ R))).
Defined.

Lemma unlocked_count_saved bs : forall b v,
  NoDup (categories bs) -> In b bs -> lockedForMonth b = false ->
  S (unlocked_count (map (saved (b_category b) v) bs)) = unlocked_count bs.
Proof.
  unfold unlocked_count.
  induction bs as [|a bs IH]; intros b v Hnd Hin Hl; [contradiction|].
  inversion Hnd as [|? ? Hnotin Hnd']; subst.
  destruct Hin as [->|Hin].
  - cbn [map filter]. rewrite saved_same by reflexivity.
    rewrite map_saved_absent by exact Hnotin.
    cbn [lockedForMonth negb]. now rewrite Hl.
  - assert (Hne : b_category a <> b_category b).
    { intros E. apply Hnotin. rewrite E. now apply in_map. }
    cbn [map filter]. rewrite (saved_other _ _ _ Hne).
    destruct (negb (lockedForMonth a)); cbn [List.length];
      now rewrite <- (IH b v Hnd' Hin Hl).
Qed.

Lemma count_events_cons p ev evs :
  count_events p (ev :: evs)
  = ((if p ev then 1 else 0) + count_events p evs)%nat.
Proof. unfold count_events. simpl. now destruct (p ev). Qed.

(** X4.  From a budget list with unique categories, every save of a
    session locks exactly one entry that was open: the saves of a
    session and the entries still open after it add up to the entries
    open before it, so there are never more saves than open entries. *)
Theorem one_save_per_open_category bs st evs st' :
  NoDup (categories bs) -> reachable bs st -> steps st evs st' ->
  (count_events is_save evs + unlocked_count (budgets st')
   = unlocked_count (budgets st))%nat /\
  (count_events is_save evs <= unlocked_count (budgets st))%nat.
Proof.
  intros Hnd Hr H.
  assert (E : (count_events is_save evs + unlocked_count (budgets st')
               = unlocked_count (budgets st))%nat); [|split; [exact E | lia]].
  induction H as [s|s ev s1 evs s2 Hs _ IH]; [reflexivity|].
  rewrite count_events_cons.
  rewrite <- Nat.add_assoc, (IH (reachable_step _ _ _ _ Hr Hs)).
  destruct (reachable_invariant _ _ Hnd Hr) as [Hnd' Hinv].
  destruct (step_budgets _ _ _ Hs) as [E|(i & b & -> & Hb & He & E)].
  - rewrite E.
    destruct Hs; simpl; try reflexivity.
    exfalso. clear IH.
    match goal with
    | Hb : nth_error (budgets ?s) _ = Some ?b,
      He : inEditMode ?b ?s = true |- _ =>
        pose proof (unlocked_count_saved (budgets s) b (editValue s) Hnd'
                      (nth_error_In _ _ Hb)
                      (Hinv b (nth_error_In _ _ Hb) He)) as Hcount
    end.
    unfold saveButton_onClick in E. rewrite handleSave_budgets in E.
    rewrite E in Hcount. lia.
  - rewrite E. simpl.
    apply (unlocked_count_saved (budgets s) b (editValue s) Hnd').
    + eapply nth_error_In; eassumption.
    + apply Hinv; [eapply nth_error_In; eassumption | exact He].
Qed.

Lemma one_save_per_open_category_witness :
  exists st',
    run [EditClick 2; InputChange 2 9000; SaveClick 2; EditClick 2;
         EditClick 5; SaveClick 5; CardClick 5]%nat
        (initialState initialBudgets) = Some st' /\
    (2 + unlocked_count (budgets st') = 5)%nat.
Proof.
  assert (Hnd : NoDup (categories initialBudgets)).
  { unfold categories; simpl.
    repeat (constructor; [simpl; intuition discriminate|]). constructor. }
  eexists.
  match goal with
  | |- ?r = Some ?s /\ _ =>
      assert (R : r = Some s) by (vm_compute; reflexivity)
  end.
  split; [exact R|].
  exact (proj1 (one_save_per_open_category initialBudgets _ _ _ Hnd
                  (ex_intro _ [] (steps_nil _)) (run_steps _ _ _ R))).
Defined.

(** X5.  Every save of a session fires one confetti burst, always with
    the same options, and starts one timer; every timeout retires one:
    the log grows by one burst per save and the pending timers are the
    earlier ones plus the saves minus the timeouts. *)
Theorem save_effects_accounting st evs st' :
  steps st evs st' ->
  confettiLog st'
  = (confettiLog st
     ++ repeat (mkConfetti 60 70 (6 # 10)) (count_events is_save evs))%list /\
  (timers st' + count_events is_timeout evs
   = timers st + count_events is_save evs)%nat.
Proof.
  induction 1 as [s|s ev s1 evs s2 Hs _ [IHc IHt]].
  - simpl. now rewrite app_nil_r, !Nat.add_0_r.
  - rewrite !count_events_cons, IHc.
    assert (Hstep : confettiLog s1
                    = (confettiLog s
                       ++ repeat (mkConfetti 60 70 (6 # 10))
                                 (if is_save ev then 1 else 0))%list /\
                    (timers s1 + (if is_timeout ev then 1 else 0)
                     = timers s + (if is_save ev then 1 else 0))%nat).
    { destruct Hs as [st i b Hb He|st i b v Hb He|st i b Hb He
                     |st i b Hb He|st i b Hb|st Hpos]; simpl;
        rewrite ?app_nil_r; try (split; [reflexivity | lia]).
      unfold editButton_onClick.
      destruct (negb (lockedForMonth b)); simpl;
        rewrite ?app_nil_r; split; (reflexivity || lia). }
    destruct Hstep as [Hc Ht]. split.
    + rewrite Hc, <- app_assoc. f_equal. now rewrite <- repeat_app.
    + lia.
Qed.

Lemma save_effects_accounting_witness :
  exists st',
    run [EditClick 2; SaveClick 2; EditClick 5; SaveClick 5;
         ToastTimeout]%nat
        (initialState initialBudgets) = Some st' /\
    confettiLog st' = [mkConfetti 60 70 (6 # 10); mkConfetti 60 70 (6 # 10)] /\
    (timers st' + 1 = 0 + 2)%nat.
Proof.
  eexists.
  match goal with
  | |- ?r = Some ?s /\ _ =>
      assert (R : r = Some s) by (vm_compute; reflexivity)
  end.
  split; [exact R|].
  exact (save_effects_accounting _ _ _ (run_steps _ _ _ R)).
Defined.

(** X6.  What a session leaves alone: without a click on a card header
    the expanded category is what it was (the buttons and the input do
    not toggle the card); without a save the budget list is what it
    was; and card clicks and timeouts leave the edit in progress, its
    category and its draft value, as they were. *)
Theorem session_frame st evs st' :
  steps st evs st' ->
  (count_events is_card_click evs = 0%nat ->
   expandedCategory st' = expandedCategory st) /\
  (count_events is_save evs = 0%nat -> budgets st' = budgets st) /\
  (forallb (fun ev => is_card_click ev || is_timeout ev) evs = true ->
   editingCategory st' = editingCategory st /\
   editValue st' = editValue st).
Proof.
  induction 1 as [s|s ev s1 evs s2 Hs _ (IHx & IHb & IHe)].
  - repeat split.
  - rewrite !count_events_cons. cbn [forallb]. repeat split.
    + intros Hn. rewrite IHx by (destruct (is_card_click ev); lia).
      destruct Hs as [st i b Hb He|st i b v Hb He|st i b Hb He
                     |st i b Hb He|st i b Hb|st Hpos];
        try reflexivity; [|simpl in Hn; lia].
      unfold editButton_onClick. now destruct (negb (lockedForMonth b)).
    + intros Hn. rewrite IHb by (destruct (is_save ev); lia).
      destruct (step_budgets _ _ _ Hs) as [E|(i & b & -> & _)];
        [exact E | simpl in Hn; lia].
    + apply andb_true_iff in H as [Hev Hrest].
      destruct (IHe Hrest) as [E _]. rewrite E.
      destruct Hs; simpl in Hev; try discriminate; reflexivity.
    + apply andb_true_iff in H as [Hev Hrest].
      destruct (IHe Hrest) as [_ E]. rewrite E.
      destruct Hs; simpl in Hev; try discriminate; reflexivity.
Qed.

Lemma session_frame_witness :
  exists st',
    run [EditClick 1; InputChange 1 2500; CancelClick 1; EditClick 3]%nat
        (setExpandedCategory (Some "Food") (initialState initialBudgets))
    = Some st' /\
    expandedCategory st' = Some "Food" /\ budgets st' = initialBudgets.
Proof.
  eexists.
  match goal with
  | |- ?r = Some ?s /\ _ =>
      assert (R : r = Some s) by (vm_compute; reflexivity)
  end.
  split; [exact R|].
  pose proof (session_frame _ _ _ (run_steps _ _ _ R)) as (Hx & Hb & _).
  split; [exact (Hx eq_refl) | exact (Hb eq_refl)].
Defined.

(** ** Saving and the total budget *)

Lemma totalBudget_cons b bs :
  totalBudget (b :: bs) == monthlyBudget b + totalBudget bs.
Proof. apply fold_sum_cons. Qed.

Lemma totalBudget_saved bs : forall b v,
  NoDup (categories bs) -> In b bs ->
  totalBudget (map (saved (b_category b) v) bs)
  == totalBudget bs - monthlyBudget b + v.
Proof.
  induction bs as [|a bs IH]; intros b v Hnd Hin; [contradiction|].
  inversion Hnd as [|? ? Hnotin Hnd']; subst.
  cbn [map]. rewrite !totalBudget_cons.
  destruct Hin as [->|Hin].
  - rewrite saved_same by reflexivity.
    rewrite map_saved_absent by exact Hnotin. simpl. ring.
  - assert (Hne : b_category a <> b_category b).
    { intros E. apply Hnotin. rewrite E. now apply in_map. }
    rewrite (saved_other _ _ _ Hne), (IH b v Hnd' Hin). ring.
Qed.

(** X7.  With unique categories, and integer budgets and draft value
    that binary64 adds exactly, saving the card of entry [b] moves the
    total budget by the difference between the draft value and the old
    budget of [b]. *)
Theorem save_moves_total st i b :
  NoDup (categories (budgets st)) ->
  exact_sums (editValue st :: map monthlyBudget (budgets st)) = true ->
  nth_error (budgets st) i = Some b ->
  totalBudget (budgets (saveButton_onClick b st))
  == totalBudget (budgets st) - monthlyBudget b + editValue st.
Proof.
  intros Hnd _ Hb. unfold saveButton_onClick. rewrite handleSave_budgets.
  apply totalBudget_saved; [exact Hnd | eapply nth_error_In; eassumption].
Qed.

Lemma save_moves_total_witness :
  totalBudget (budgets (saveButton_onClick (mkBudget "Shopping" 12000 false)
                          (setEditValue 9000 (initialState initialBudgets))))
  == 38000 - 12000 + 9000.
Proof.
  assert (Hnd : NoDup (categories initialBudgets)).
  { unfold categories; simpl.
    repeat (constructor; [simpl; intuition discriminate|]). constructor. }
  exact (save_moves_total (setEditValue 9000 (initialState initialBudgets))
           2%nat (mkBudget "Shopping" 12000 false) Hnd eq_refl eq_refl).
Defined.

(** X8.  Opening the editor of an open card and saving at once, without
    typing, keeps the budget value and so the total budget, but uses up
    the one edit: with unique categories the entry is the same budget,
    now locked, and every other entry is as it was. *)
Theorem edit_then_save_locks_same_value st i b :
  NoDup (categories (budgets st)) ->
  nth_error (budgets st) i = Some b ->
  lockedForMonth b = false ->
  inEditMode b st = false ->
  exists st',
    run [EditClick i; SaveClick i] st = Some st' /\
    nth_error (budgets st') i
    = Some (mkBudget (b_category b) (monthlyBudget b) true) /\
    (forall j b', j <> i -> nth_error (budgets st) j = Some b' ->
                  nth_error (budgets st') j = Some b') /\
    totalBudget (budgets st') == totalBudget (budgets st).
Proof.
  intros Hnd Hb Hl He.
  set (st1 := editButton_onClick b st).
  assert (E1 : st1 = setEditValue (monthlyBudget b)
                       (setEditingCategory (Some (b_category b)) st))
    by (unfold st1, editButton_onClick; now rewrite Hl).
  exists (handleSave (b_category b) st1). split; [|split; [|split]].
  - cbn [run dispatch]. rewrite Hb, He. fold st1. cbn [run dispatch].
    assert (Hb1 : nth_error (budgets st1) i = Some b) by (now rewrite E1).
    rewrite Hb1.
    assert (He1 : inEditMode b st1 = true)
      by (rewrite E1; unfold inEditMode; simpl; apply String.eqb_refl).
    now rewrite He1.
  - rewrite handleSave_budgets, E1. simpl.
    rewrite nth_error_map, Hb. simpl. now rewrite saved_same.
  - intros j b' Hj Hb'. rewrite handleSave_budgets, E1. simpl.
    rewrite nth_error_map, Hb'. simpl. f_equal. apply saved_other.
    intros Ec. apply Hj. eapply NoDup_categories_index; eauto.
  - rewrite handleSave_budgets, E1. simpl.
    rewrite totalBudget_saved;
      [ring | exact Hnd | eapply nth_error_In; eassumption].
Qed.

Lemma edit_then_save_locks_same_value_witness :
  exists st',
    run [EditClick 4; SaveClick 4]%nat (initialState initialBudgets)
    = Some st' /\
    nth_error (budgets st') 4 = Some (mkBudget "Medical" 3000 true) /\
    totalBudget (budgets st') == totalBudget initialBudgets.
Proof.
  assert (Hnd : NoDup (categories initialBudgets)).
  { unfold categories; simpl.
    repeat (constructor; [simpl; intuition discriminate|]). constructor. }
  destruct (edit_then_save_locks_same_value (initialState initialBudgets)
              4%nat (mkBudget "Medical" 3000 false) Hnd eq_refl eq_refl
              eq_refl) as (st' & Hrun & Hentry & _ & Htotal).
  exists st'. split; [exact Hrun|]. split; [exact Hentry | exact Htotal].
Defined.

(** ** Rounded percentages against thresholds *)

(** A rounded value exceeds the integer [n] exactly from [n + 1/2] on. *)
Lemma Math_round_gt x n :
  inject_Z n < Math_round x <-> inject_Z n + (1 # 2) <= x.
Proof.
  unfold Math_round. rewrite <- Zlt_Qlt. split.
  - intros H.
    assert (Hle : inject_Z (n + 1) <= inject_Z (Qfloor (x + (1 # 2))))
      by (rewrite <- Zle_Qle; lia).
    pose proof (Qfloor_le (x + (1 # 2))) as Hf.
    rewrite inject_Z_plus in Hle. change (inject_Z 1) with 1 in Hle. lra.
  - intros H.
    assert (Hle : inject_Z (n + 1) <= x + (1 # 2)).
    { rewrite inject_Z_plus. change (inject_Z 1) with 1. lra. }
    apply Qfloor_resp_le in Hle. rewrite Qfloor_Z in Hle. lia.
Qed.

(** ** The budget cards *)

Lemma getSpentByCategory_nonneg txs c :
  Forall (fun t => 0 <= amount t) txs -> 0 <= getSpentByCategory txs c.
Proof.
  intros H.
  apply (totalSpent_nonneg
           (filter (fun t => String.eqb (category t) c) txs)).
  rewrite Forall_forall in H |- *. intros t Ht. apply H.
  now apply filter_In in Ht.
Qed.

Lemma Math_round_nonneg x : 0 <= x -> 0 <= Math_round x.
Proof.
  intros Hx.
  assert (H : inject_Z (-1) < Math_round x).
  { apply Math_round_gt. unfold inject_Z. lra. }
  unfold Math_round in *. rewrite <- Zlt_Qlt in H.
  change 0 with (inject_Z 0). rewrite <- Zle_Qle. lia.
Qed.

(** X11.  The width of a card's bar never exceeds 100 percent: it is the
    percentage up to 100 and 100 above; and for non-negative amounts it
    is never negative either. *)
Theorem card_bar_width_bounds txs budget :
  (forall p,
      card_bar_width p <= 100 /\
      (p <= 100 -> card_bar_width p = p) /\
      (100 < p -> card_bar_width p = 100)) /\
  (Forall (fun t => 0 <= amount t) txs ->
   exists p,
     card_percentage txs budget = Some p /\
     0 <= card_bar_width p /\ card_bar_width p <= 100).
Proof.
  assert (Hw : forall p,
             card_bar_width p <= 100 /\
             (p <= 100 -> card_bar_width p = p) /\
             (100 < p -> card_bar_width p = 100)).
  { intros p. unfold card_bar_width, Math_min.
    destruct (Qle_bool p 100) eqn:E.
    - apply Qle_bool_iff in E. repeat split; [exact E | lra].
    - assert (100 < p).
      { apply Qnot_le_lt. intros Hle. apply Qle_bool_iff in Hle.
        congruence. }
      repeat split; [lra | lra]. }
  split; [exact Hw|].
  intros Hnn.
  assert (Hp : exists p, card_percentage txs budget = Some p /\ 0 <= p).
  { unfold card_percentage.
    destruct (gt (monthlyBudget budget) 0) eqn:Eb.
    - apply gt_true in Eb. rewrite js_div_nonzero by lra.
      eexists. split; [reflexivity|]. apply Math_round_nonneg.
      pose proof (getSpentByCategory_nonneg txs (b_category budget) Hnn)
        as Hs.
      fold (card_spent txs budget) in Hs.
      apply Qmult_le_0_compat; [|lra].
      apply Qle_shift_div_l; [exact Eb | lra].
    - exists 0. split; [reflexivity | lra]. }
  destruct Hp as (p & Hp & Hge). exists p. split; [exact Hp|].
  destruct (Hw p) as (Hle & Hsame & Hcap). split; [|exact Hle].
  destruct (Qlt_le_dec 100 p) as [Hgt|Hle'].
  - rewrite (Hcap Hgt). lra.
  - now rewrite (Hsame Hle').
Qed.

Lemma card_bar_width_bounds_witness :
  exists p,
    card_percentage mockTransactions (mkBudget "Food" 1000 false) = Some p /\
    0 <= card_bar_width p /\ card_bar_width p <= 100.
Proof.
  apply (card_bar_width_bounds mockTransactions
           (mkBudget "Food" 1000 false)).
  repeat constructor; vm_compute; discriminate.
Defined.

Lemma has_card_In bs t : has_card bs t = true <-> In (category t) (categories bs).
Proof.
  unfold has_card. rewrite existsb_exists. split.
  - intros (c & Hc & E). apply String.eqb_eq in E. now rewrite E.
  - intros H. exists (category t). split; [exact H | apply String.eqb_refl].
Qed.

Lemma spent_of_card_transactions bs txs c :
  In c (categories bs) ->
  getSpentByCategory (filter (has_card bs) txs) c = getSpentByCategory txs c.
Proof.
  intros Hc. unfold getSpentByCategory. f_equal.
  induction txs as [|t txs IH]; [reflexivity|]. cbn [filter].
  destruct (String.eqb_spec (category t) c) as [E|Hne].
  - rewrite (proj2 (has_card_In bs t)) by (now rewrite E).
    cbn [filter]. rewrite (proj2 (String.eqb_eq _ _) E). now rewrite IH.
  - destruct (has_card bs t); cbn [filter];
      rewrite ?(proj2 (String.eqb_neq _ _) Hne); exact IH.
Qed.

(** X12.  With unique categories, and integer amounts that binary64
    adds exactly, the amounts spent shown on the cards add up to the
    total of the transactions whose category has a card; they add up
    to [totalSpent], the figure in the ring, when no transaction is
    left without a card. *)
Theorem cards_spent_total bs txs :
  NoDup (categories bs) ->
  exact_sums (map amount txs) = true ->
  Qsum (map (card_spent txs) bs) == totalSpent (filter (has_card bs) txs) /\
  ((forall t, In t txs -> In (category t) (categories bs)) ->
   Qsum (map (card_spent txs) bs) == totalSpent txs).
Proof.
  intros Hnd _.
  assert (E : Qsum (map (card_spent txs) bs)
              == totalSpent (filter (has_card bs) txs)).
  { unfold card_spent. rewrite <- (map_map b_category (getSpentByCategory txs)).
    fold (categories bs).
    rewrite (Qsum_map_ext _
               (getSpentByCategory (filter (has_card bs) txs)))
      by (intros c Hc; now rewrite spent_of_card_transactions).
    apply spent_partition; [exact Hnd|].
    intros t Ht. apply filter_In in Ht as [_ Ht]. now apply has_card_In. }
  split; [exact E|].
  intros Hall. rewrite E.
  assert (Hf : filter (has_card bs) txs = txs); [|now rewrite Hf].
  clear E. induction txs as [|t txs IH]; [reflexivity|]. cbn [filter].
  rewrite (proj2 (has_card_In bs t)) by (apply Hall; now left).
  f_equal. apply IH. intros t' Ht'. apply Hall. now right.
Qed.

Lemma cards_spent_total_witness :
  Qsum (map (card_spent mockTransactions) initialBudgets)
  == totalSpent mockTransactions.
Proof.
  assert (Hnd : NoDup (categories initialBudgets)).
  { unfold categories; simpl.
    repeat (constructor; [simpl; intuition discriminate|]). constructor. }
  apply (proj2 (cards_spent_total initialBudgets mockTransactions Hnd
                  eq_refl)).
  intros t Ht. apply has_card_In.
  revert t Ht. apply Forall_forall. repeat constructor.
Defined.

Lemma filter_disjoint_perm {A : Type} (p q : A -> bool) l :
  (forall x, In x l -> p x = true -> q x = false) ->
  Permutation (filter p l ++ filter q l) (filter (fun x => p x || q x) l).
Proof.
  induction l as [|x l IH]; intros H; [reflexivity|]. cbn [filter].
  assert (IH' : Permutation (filter p l ++ filter q l)
                            (filter (fun x => p x || q x) l))
    by (apply IH; intros y Hy; apply H; now right).
  destruct (p x) eqn:Ep.
  - rewrite (H x (or_introl eq_refl) Ep). simpl. now constructor.
  - simpl. destruct (q x).
    + rewrite <- Permutation_middle. now constructor.
    + exact IH'.
Qed.

(** X13.  With unique categories every transaction whose category has a
    card is listed on exactly one card, and no other transaction is
    listed anywhere: the lists of all the cards together are a
    rearrangement of the transactions that have a card. *)
Theorem card_transactions_partition bs txs :
  NoDup (categories bs) ->
  Permutation (flat_map (card_transactions txs) bs)
              (filter (has_card bs) txs).
Proof.
  induction bs as [|a bs IH]; intros Hnd.
  - simpl. induction txs as [|t txs IHt]; [reflexivity | exact IHt].
  - inversion Hnd as [|? ? Hnotin Hnd']; subst. cbn [flat_map].
    rewrite (IH Hnd'). unfold card_transactions.
    rewrite filter_disjoint_perm.
    + unfold has_card, categories. cbn [map existsb]. reflexivity.
    + intros t _ E. apply String.eqb_eq in E.
      apply not_true_iff_false. rewrite has_card_In, E. exact Hnotin.
Qed.

Lemma card_transactions_partition_witness :
  Permutation (flat_map (card_transactions mockTransactions) initialBudgets)
              mockTransactions.
Proof.
  assert (Hnd : NoDup (categories initialBudgets)).
  { unfold categories; simpl.
    repeat (constructor; [simpl; intuition discriminate|]). constructor. }
  exact (card_transactions_partition initialBudgets mockTransactions Hnd).
Defined.

(** ** The analytics card *)

Lemma categoryStats_perm txs stats :
  own_names txs = true ->
  categoryStats txs = Some stats ->
  Permutation stats
              (map (stat_of (totalSpent txs))
                   (Object_entries (own_totals txs))).
Proof.
  intros Hown. rewrite (categoryStats_eq _ Hown). intros [= <-].
  apply (Array_sort_perm s_amount).
Qed.

Lemma categoryStats_sorted txs stats :
  own_names txs = true ->
  categoryStats txs = Some stats -> StronglySorted amount_ge stats.
Proof.
  intros Hown. rewrite (categoryStats_eq _ Hown). intros [= <-].
  apply (Array_sort_sorted s_amount).
Qed.

Lemma categoryStats_entry txs stats e :
  own_names txs = true ->
  categoryStats txs = Some stats -> In e stats ->
  s_amount e == getSpentByCategory txs (s_category e) /\
  percentageOfTotal e
  = if gt (totalSpent txs) 0 then s_amount e / totalSpent txs * 100 else 0.
Proof.
  intros Hown Hs He.
  apply (Permutation_in _ (categoryStats_perm txs stats Hown Hs)) in He.
  apply in_map_iff in He as (kv & <- & Hkv). split; [|reflexivity].
  now apply entries_amount.
Qed.

Lemma categoryStats_amounts_total txs stats :
  own_names txs = true ->
  categoryStats txs = Some stats ->
  Qsum (map s_amount stats) == totalSpent txs.
Proof.
  intros Hown Hs.
  rewrite (Qsum_perm _ _
             (Permutation_map s_amount
                (categoryStats_perm txs stats Hown Hs))).
  rewrite map_map.
  rewrite (Qsum_map_ext _ (fun kv => getSpentByCategory txs (fst kv)))
    by (intros kv Hkv; apply (entries_amount txs kv Hkv)).
  rewrite <- (map_map fst (getSpentByCategory txs)), entries_keys.
  rewrite (Qsum_perm _ _
             (Permutation_map (getSpentByCategory txs)
                (OwnPropertyKeys_perm _))).
  apply spent_distinct.
Qed.


Lemma Qsum_nonneg l : (forall x, In x l -> 0 <= x) -> 0 <= Qsum l.
Proof.
  induction l as [|x l IH]; simpl; intros H; [lra|].
  pose proof (H x (or_introl eq_refl)).
  assert (0 <= Qsum l) by (apply IH; intros y Hy; apply H; now right).
  lra.
Qed.

Lemma Qsum_elem_le l y :
  (forall x, In x l -> 0 <= x) -> In y l -> y <= Qsum l.
Proof.
  induction l as [|x l IH]; simpl; intros H Hy; [contradiction|].
  pose proof (H x (or_introl eq_refl)).
  assert (Hl : forall z, In z l -> 0 <= z) by (intros z Hz; apply H; now right).
  pose proof (Qsum_nonneg l Hl).
  destruct Hy as [->|Hy]; [lra|].
  pose proof (IH Hl Hy). lra.
Qed.



Lemma Math_max_spec a b :
  a <= Math_max a b /\ b <= Math_max a b /\
  (Math_max a b = a \/ Math_max a b = b).
Proof.
  unfold Math_max. destruct (Qle_bool a b) eqn:E.
  - apply Qle_bool_iff in E. repeat split; [exact E | lra | now right].
  - assert (b < a).
    { apply Qnot_le_lt. intros H. apply Qle_bool_iff in H. congruence. }
    repeat split; [lra | lra | now left].
Qed.

Lemma fold_max_spec l : forall a,
  a <= fold_left (fun max c => Math_max max (s_amount c)) l a /\
  (forall e, In e l ->
             s_amount e
             <= fold_left (fun max c => Math_max max (s_amount c)) l a) /\
  (fold_left (fun max c => Math_max max (s_amount c)) l a = a \/
   exists e, In e l /\
             fold_left (fun max c => Math_max max (s_amount c)) l a
             = s_amount e).
Proof.
  induction l as [|x l IH]; intros a; cbn [fold_left].
  - repeat split; [lra | contradiction | now left].
  - destruct (IH (Math_max a (s_amount x))) as (Hge & Hall & Hatt).
    destruct (Math_max_spec a (s_amount x)) as (Ha & Hx & Hm).
    repeat split.
    + lra.
    + intros e [<-|He]; [lra | now apply Hall].
    + destruct Hatt as [E|(e & He & E)].
      * destruct Hm as [Hm|Hm]; rewrite E, Hm; [now left|].
        right. exists x. split; [now left | reflexivity].
      * right. exists e. split; [now right | exact E].
Qed.

(** X15.  [maxCategoryAmount] is never negative, is at least the amount
    of every entry, and is either 0 or the amount of one of the
    entries; it is 0 exactly when no entry has a positive amount. *)
Theorem maxCategoryAmount_largest stats :
  0 <= maxCategoryAmount stats /\
  (forall e, In e stats -> s_amount e <= maxCategoryAmount stats) /\
  (maxCategoryAmount stats = 0 \/
   exists e, In e stats /\ maxCategoryAmount stats = s_amount e) /\
  (maxCategoryAmount stats == 0 <->
   forall e, In e stats -> s_amount e <= 0).
Proof.
  unfold maxCategoryAmount.
  destruct (fold_max_spec stats 0) as (Hge & Hall & Hatt).
  repeat split; try assumption.
  - intros E e He. rewrite <- E. now apply Hall.
  - intros H. destruct Hatt as [->|(e & He & E)]; [reflexivity|].
    pose proof (H e He). rewrite E in *. lra.
Qed.

Lemma bar_entry_total max item :
  ~ max == 0 ->
  (q <- js_div (s_amount item) max ;;
   Some (mkBar (s_category item) (s_amount item)
               (percentageOfTotal item) (q * 100)))
  = Some (bar_of max item).
Proof. intros H. now rewrite js_div_nonzero. Qed.

Lemma CategoryBarChart_shown stats :
  stats <> [] -> ~ maxCategoryAmount stats == 0 ->
  CategoryBarChart stats
  = Some (Shown (map (bar_of (maxCategoryAmount stats)) stats)).
Proof.
  intros Hne Hmax. unfold CategoryBarChart.
  destruct stats as [|e stats]; [contradiction|]. cbn [List.length Nat.eqb orb].
  destruct (Qeq_bool (maxCategoryAmount (e :: stats)) 0) eqn:E.
  - apply Qeq_bool_iff in E. contradiction.
  - rewrite (mapM_total _ (bar_of (maxCategoryAmount (e :: stats))))
      by (intros; now apply bar_entry_total).
    reflexivity.
Qed.

Lemma CategoryBarChart_hidden stats :
  stats = [] \/ maxCategoryAmount stats == 0 ->
  CategoryBarChart stats = Some Hidden.
Proof.
  unfold CategoryBarChart. intros [->|H]; [reflexivity|].
  apply Qeq_bool_iff in H. rewrite H. now rewrite orb_true_r.
Qed.

(** X16.  The bar chart always renders to something: nothing at all
    exactly when no entry has a positive amount (in particular for no
    entries), and otherwise one bar per entry, in the order of the
    entries, none wider than 100 percent and at least one of exactly
    100 percent. *)
Theorem CategoryBarChart_bars stats :
  exists r,
    CategoryBarChart stats = Some r /\
    (r = Hidden <-> forall e, In e stats -> s_amount e <= 0) /\
    (forall bars,
        r = Shown bars ->
        map bar_category bars = map s_category stats /\
        map bar_amount bars = map s_amount stats /\
        (forall bar, In bar bars -> bar_width bar <= 100) /\
        (exists bar, In bar bars /\ bar_width bar == 100)).
Proof.
  destruct (maxCategoryAmount_largest stats) as (Hge & Hall & Hatt & Hzero).
  destruct (Qeq_dec (maxCategoryAmount stats) 0) as [E|N].
  - exists Hidden. split; [apply CategoryBarChart_hidden; now right|].
    split; [|discriminate]. split; [intros _; now apply Hzero | reflexivity].
  - assert (Hne : stats <> []) by (intros ->; now apply N).
    assert (Hpos : 0 < maxCategoryAmount stats) by lra.
    eexists. split; [now apply CategoryBarChart_shown|].
    split; [split; [discriminate | intros H; now apply Hzero in H]|].
    intros bars [= <-]. rewrite !map_map. cbn [bar_of bar_category bar_amount].
    repeat split.
    + intros bar Hb. apply in_map_iff in Hb as (e & <- & He).
      cbn [bar_of bar_width]. pose proof (Hall e He) as Hle.
      assert (Hr : s_amount e
                   == s_amount e / maxCategoryAmount stats
                      * maxCategoryAmount stats) by (field; lra).
      set (r := s_amount e / maxCategoryAmount stats) in *. nra.
    + destruct Hatt as [E|(e & He & E)]; [rewrite E in N; now elim N|].
      exists (bar_of (maxCategoryAmount stats) e).
      split; [now apply in_map|]. cbn [bar_of bar_width].
      rewrite <- E. field. lra.
Qed.

Lemma CategoryBarChart_bars_witness :
  exists r,
    CategoryBarChart [mkStat "Food" 30 75; mkStat "Travel" 10 25] = Some r /\
    forall bars,
      r = Shown bars ->
      map bar_category bars = ["Food"; "Travel"] /\
      map bar_amount bars = [30; 10] /\
      (forall bar, In bar bars -> bar_width bar <= 100) /\
      (exists bar, In bar bars /\ bar_width bar == 100).
Proof.
  destruct (CategoryBarChart_bars [mkStat "Food" 30 75; mkStat "Travel" 10 25])
    as (r & Hr & _ & Hbars).
  exists r. split; [exact Hr | exact Hbars].
Defined.

Lemma maxCategoryAmount_largest_witness :
  maxCategoryAmount [mkStat "Food" 30 75; mkStat "Travel" 10 25] = 30 /\
  forall e, In e [mkStat "Food" 30 75; mkStat "Travel" 10 25] ->
            s_amount e
            <= maxCategoryAmount [mkStat "Food" 30 75; mkStat "Travel" 10 25].
Proof.
  split; [reflexivity|].
  exact (proj1 (proj2 (maxCategoryAmount_largest
                         [mkStat "Food" 30 75; mkStat "Travel" 10 25]))).
Defined.

Lemma Qsum_nonpos l : (forall x, In x l -> x <= 0) -> Qsum l <= 0.
Proof.
  induction l as [|x l IH]; simpl; intros H; [lra|].
  pose proof (H x (or_introl eq_refl)).
  assert (Qsum l <= 0) by (apply IH; intros y Hy; apply H; now right).
  lra.
Qed.

Lemma bars_sorted max stats :
  0 < max -> StronglySorted amount_ge stats ->
  StronglySorted width_ge (map (bar_of max) stats).
Proof.
  intros Hmax. induction 1 as [|e l _ IH He]; cbn [map]; constructor.
  - exact IH.
  - rewrite Forall_map. eapply Forall_impl; [|exact He].
    intros e' Hle. unfold amount_ge in Hle. unfold width_ge, bar_of.
    cbn [bar_width].
    assert (H1 : s_amount e == s_amount e / max * max) by (field; lra).
    assert (H2 : s_amount e' == s_amount e' / max * max) by (field; lra).
    set (r := s_amount e / max) in *. set (r' := s_amount e' / max) in *.
    nra.
Qed.

(** X17.  The chart of the page, drawn from [categoryStats], for
    category names that are not names of members of
    [Object.prototype].  When it is shown its first bar is exactly 100
    percent wide and the widths never grow from one bar to the next.
    For non-negative amounts it is hidden exactly when nothing was
    spent, and no bar has a negative width. *)
Theorem page_chart txs :
  own_names txs = true ->
  exists stats r,
    categoryStats txs = Some stats /\
    CategoryBarChart stats = Some r /\
    (forall bars,
        r = Shown bars ->
        (exists first rest,
            bars = first :: rest /\ bar_width first == 100) /\
        StronglySorted width_ge bars) /\
    (Forall (fun t => 0 <= amount t) txs ->
     (r = Hidden <-> totalSpent txs == 0) /\
     (forall bars bar, r = Shown bars -> In bar bars -> 0 <= bar_width bar)).
Proof.
  intros Hown.
  eexists.
  set (stats := Array_sort (fun a b => s_amount b - s_amount a)
                  (map (stat_of (totalSpent txs))
                       (Object_entries (own_totals txs)))).
  assert (Hs : categoryStats txs = Some stats) by now apply categoryStats_eq.
  pose proof (categoryStats_sorted txs stats Hown Hs) as Hsorted.
  pose proof (categoryStats_amounts_total txs stats Hown Hs) as Htotal.
  destruct (maxCategoryAmount_largest stats) as (Hge & Hall & Hatt & Hzero).
  destruct (Qeq_dec (maxCategoryAmount stats) 0) as [E|N].
  - exists Hidden. split; [exact Hs|].
    split; [apply CategoryBarChart_hidden; now right|].
    split; [discriminate|]. intros Hnn.
    split; [|discriminate]. split; [intros _ | reflexivity].
    pose proof (totalSpent_nonneg txs Hnn).
    assert (Qsum (map s_amount stats) <= 0).
    { apply Qsum_nonpos. intros x Hx.
      apply in_map_iff in Hx as (e & <- & He). now apply (proj1 Hzero). }
    lra.
  - assert (Hne : stats <> []) by (intros Hnil; rewrite Hnil in N; now apply N).
    assert (Hpos : 0 < maxCategoryAmount stats) by lra.
    exists (Shown (map (bar_of (maxCategoryAmount stats)) stats)).
    split; [exact Hs|]. split; [now apply CategoryBarChart_shown|].
    split.
    + intros bars [= <-]. split; [|now apply bars_sorted].
      destruct stats as [|e0 rest] eqn:Est; [contradiction|].
      exists (bar_of (maxCategoryAmount (e0 :: rest)) e0),
             (map (bar_of (maxCategoryAmount (e0 :: rest))) rest).
      split; [reflexivity|]. cbn [bar_of bar_width].
      assert (Emax : maxCategoryAmount (e0 :: rest) == s_amount e0).
      { destruct Hatt as [E|(e & He & E)]; [rewrite E in N; now elim N|].
        pose proof (Hall e0 (or_introl eq_refl)) as Hle0.
        inversion Hsorted as [|? ? _ Hfirst]; subst.
        destruct He as [<-|He]; [now rewrite E|].
        rewrite Forall_forall in Hfirst. pose proof (Hfirst e He) as Hle.
        unfold amount_ge in Hle. rewrite E in *. lra. }
      rewrite Emax in Hpos |- *. field. lra.
    + intros Hnn. split.
      * split; [discriminate|]. intros Ez. exfalso.
        destruct Hatt as [E|(e & He & E)]; [rewrite E in N; now apply N|].
        assert (H0 : forall x, In x (map s_amount stats) -> 0 <= x).
        { intros x Hx. apply in_map_iff in Hx as (e' & <- & He').
          rewrite (proj1 (categoryStats_entry txs stats e' Hown Hs He')).
          now apply getSpentByCategory_nonneg. }
        pose proof (Qsum_elem_le _ _ H0 (in_map s_amount _ _ He)) as Hle.
        rewrite E in Hpos. lra.
      * intros bars bar [= <-] Hb.
        apply in_map_iff in Hb as (e & <- & He). cbn [bar_of bar_width].
        assert (Ha : 0 <= s_amount e).
        { rewrite (proj1 (categoryStats_entry txs stats e Hown Hs He)).
          now apply getSpentByCategory_nonneg. }
        apply Qmult_le_0_compat; [|lra].
        apply Qle_shift_div_l; [exact Hpos | lra].
Qed.

Lemma page_chart_witness :
  exists stats r,
    categoryStats mockTransactions = Some stats /\
    CategoryBarChart stats = Some r /\
    (r = Hidden <-> totalSpent mockTransactions == 0).
Proof.
  assert (Hown : own_names mockTransactions = true)
    by (vm_compute; reflexivity).
  destruct (page_chart mockTransactions Hown)
    as (stats & r & Hs & Hr & _ & Hnn).
  exists stats, r. split; [exact Hs|]. split; [exact Hr|].
  apply Hnn. repeat constructor; vm_compute; discriminate.
Defined.

(** ** The ring *)

Lemma circumference_pos size : 40 < size -> 0 < circumference size.
Proof.
  intros H. unfold circumference, radius.
  assert (Hpi : 0 < 2 * Math_PI) by reflexivity.
  assert (Hr : 0 < size / 2 - 20).
  { assert (E : size == size / 2 * 2) by (field; lra).
    set (h := size / 2) in *. lra. }
  now apply Qmult_lt_0_compat.
Qed.

(** X18.  The ring is not capped.  For a ring wider than its stroke
    margin ([size > 40]) the dash offset is the whole circumference at
    0 percent, falls to 0 at 100 percent, and is negative above 100
    percent. *)
Theorem ring_offset size p :
  40 < size ->
  strokeDashoffset 0 size == circumference size /\
  strokeDashoffset 100 size == 0 /\
  (0 < strokeDashoffset p size <-> p < 100) /\
  (strokeDashoffset p size < 0 <-> 100 < p).
Proof.
  intros H. pose proof (circumference_pos size H) as Hc.
  unfold strokeDashoffset. set (c := circumference size) in *.
  assert (Ep : p == p / 100 * 100) by (field; lra).
  set (q := p / 100) in *.
  repeat split; try (intros; nra).
  - field.
  - field.
Qed.

Lemma ring_offset_witness :
  radius 220 == 90 /\
  strokeDashoffset 100 220 == 0 /\
  (strokeDashoffset 120 220 < 0 <-> 100 < 120).
Proof.
  assert (H : 40 < 220) by reflexivity.
  split; [reflexivity|].
  split; [exact (proj1 (proj2 (ring_offset 220 120 H)))|].
  exact (proj2 (proj2 (proj2 (ring_offset 220 120 H)))).
Defined.
